(** * dom-builder: a shallow embedding of parseDomString, domBuilderBasicSetup
      and domBuilder, and the properties of the design notes checked on it.

    Conventions of the embedding.
    - A JavaScript string is a [string]: a sequence of 8-bit code units (the
      Latin-1 part of the UTF-16 code units).  Line terminators and white
      space are the ones of that range.
    - A JavaScript number is an integer [Z]; there is no NaN and no fraction,
      and its string form is its decimal expansion, which is the engine's for
      the safe integers.
    - The host document is a store of element nodes addressed by reference.
      Creating an element, setting an attribute, assigning [className], [id]
      and [innerHTML] and appending a child are the host's; they are modelled
      in [Module Host] and take any name and any node (the host's own
      validation and case folding of names and its check of the hierarchy are
      not part of the embedding).  The statements about what a call builds
      are made for the names, values and nodes on which the embedding and the
      host agree ([host_name], [printable], [hosted], [contains]).
    - An assignment [o[k] = v] adds the key in creation order; the engine
      does so for every key but [__proto__] and the array indices
      ([own_key]).
    - A call that throws (a TypeError of the source) yields [None]; so does a
      step whose meaning only the host defines (reading the properties of an
      element used as a configuration object). *)

From Stdlib Require Import String Ascii ZArith DecimalString.
From stdpp Require Import gmap strings list fin_maps.

Open Scope string_scope.
Open Scope list_scope.

(** ** Strings: the String.prototype methods the sources call *)

Module Str.

Definition chars (s : string) : list ascii := list_ascii_of_string s.
Definition pack (l : list ascii) : string := string_of_list_ascii l.

Definition code (c : ascii) : N := N_of_ascii c.

Definition in_range (lo hi : N) (c : ascii) : bool :=
  (lo <=? code c)%N && (code c <=? hi)%N.

Definition is_upper (c : ascii) : bool := in_range 65 90 c.
Definition is_lower (c : ascii) : bool := in_range 97 122 c.
Definition is_letter (c : ascii) : bool := is_lower c || is_upper c.
Definition is_digit (c : ascii) : bool := in_range 48 57 c.

(** [[a-zA-Z0-9_-]] *)
Definition is_word (c : ascii) : bool :=
  is_letter c || is_digit c || (code c =? 95)%N || (code c =? 45)%N.

(** WhiteSpace and LineTerminator code units below 256: TAB, LF, VT, FF, CR,
    SP and NBSP.  This is the set [trim] strips and [\s] matches. *)
Definition is_space (c : ascii) : bool :=
  in_range 9 13 c || (code c =? 32)%N || (code c =? 160)%N.

(** LineTerminator code units below 256 (what [.] refuses). *)
Definition is_line_terminator (c : ascii) : bool :=
  (code c =? 10)%N || (code c =? 13)%N.

Definition lower_char (c : ascii) : ascii :=
  if is_upper c then ascii_of_N (code c + 32) else c.

(** [s.toLowerCase()], on the ASCII letters. *)
Definition toLowerCase (s : string) : string := pack (map lower_char (chars s)).

Fixpoint drop_space (l : list ascii) : list ascii :=
  match l with
  | c :: t => if is_space c then drop_space t else l
  | [] => []
  end.

(** [s.trim()] *)
Definition trim (s : string) : string :=
  pack (rev (drop_space (rev (drop_space (chars s))))).

(** [s.slice(1)] *)
Definition slice1 (s : string) : string :=
  match s with
  | EmptyString => EmptyString
  | String _ t => t
  end.

(** [s.substring(1, s.length - 1)]: when [s.length] is 0 or 1 the two bounds
    are swapped or equal and the result is an empty or one-unit prefix; the
    general clamp-and-swap rule of [substring] is written out. *)
Definition substring_1_last (s : string) : string :=
  let n := String.length s in
  let a := Nat.min 1 n in
  let b := Nat.min (n - 1) n in
  let lo := Nat.min a b in
  let hi := Nat.max a b in
  String.substring lo (hi - lo) s.

(** [s.includes(c)] for a one-unit needle. *)
Definition includes (c : ascii) (s : string) : bool :=
  existsb (fun d => (code d =? code c)%N) (chars s).

(** [s.split(c)] for a one-unit string separator. *)
Fixpoint split_on (c : ascii) (acc : list ascii) (l : list ascii) : list string :=
  match l with
  | [] => [pack (rev acc)]
  | d :: t =>
      if (code d =? code c)%N then pack (rev acc) :: split_on c [] t
      else split_on c (d :: acc) t
  end.

Definition split_char (c : ascii) (s : string) : list string :=
  split_on c [] (chars s).

(** [a.join(sep)] on an array of strings. *)
Fixpoint join (sep : string) (l : list string) : string :=
  match l with
  | [] => ""
  | [x] => x
  | x :: t => x +:+ sep +:+ join sep t
  end.

End Str.

(** ** Regular expressions: a backtracking matcher with captures *)

Module Re.

(** The constructs the two sources use.  [Repeat] is the greedy or lazy star,
    [Plus] the greedy plus, [Opt] the greedy question mark, [Group n] the
    n-th capturing group; [Bol] and [Eol] are [^] and [$] without the
    multiline flag. *)
Inductive regex : Type :=
| Empty
| Class (p : ascii -> bool)
| Seq (r1 r2 : regex)
| Repeat (greedy : bool) (r : regex)
| Plus (r : regex)
| Opt (r : regex)
| Group (n : nat) (r : regex)
| Bol
| Eol.

(** A matcher state: the input still to read, the index reached, and the
    captures recorded so far (latest first). *)
Record mstate : Type := MState {
  rest : list ascii;
  idx : nat;
  caps : list (nat * string)
}.

Definition cont : Type := mstate -> option mstate.

Definition orelse (a b : option mstate) : option mstate :=
  match a with
  | Some x => Some x
  | None => b
  end.

(** RepeatMatcher with min = 0 and no upper bound: an iteration that matches
    the empty string is rejected.  Every accepted iteration reads at least
    one unit, so the number of iterations is bounded by the input left, which
    is the [fuel] the caller passes: any larger number gives the same result
    (lemma [repeat_loop_enough]). *)
Fixpoint repeat_loop (m : cont -> cont) (greedy : bool) (k : cont)
    (fuel : nat) (s : mstate) : option mstate :=
  match fuel with
  | O => k s
  | S fuel' =>
      let again :=
        m (fun s' => if (idx s' =? idx s)%nat then None
                     else repeat_loop m greedy k fuel' s') s in
      if greedy then orelse again (k s) else orelse (k s) again
  end.

(** No capturing group of the patterns below sits under a quantifier that can
    iterate twice, so resetting the captures of a group at the start of an
    iteration has nothing to reset and is left out. *)
Fixpoint rmatch (r : regex) (k : cont) (s : mstate) : option mstate :=
  match r with
  | Empty => k s
  | Class p =>
      match rest s with
      | c :: t => if p c then k (MState t (S (idx s)) (caps s)) else None
      | [] => None
      end
  | Seq r1 r2 => rmatch r1 (rmatch r2 k) s
  | Repeat greedy r1 => repeat_loop (rmatch r1) greedy k (length (rest s)) s
  | Plus r1 =>
      rmatch r1 (fun s' => repeat_loop (rmatch r1) true k (length (rest s')) s') s
  | Opt r1 =>
      orelse (rmatch r1 (fun s' => if (idx s' =? idx s)%nat then None else k s') s)
             (k s)
  | Group n r1 =>
      rmatch r1
        (fun s' =>
           k (MState (rest s') (idx s')
                ((n, Str.pack (firstn (idx s' - idx s) (rest s))) :: caps s')))
        s
  | Bol => if (idx s =? 0)%nat then k s else None
  | Eol => match rest s with [] => k s | _ :: _ => None end
  end.

(** One attempt at the position of [s] (a sticky match). *)
Definition match_here (r : regex) (s : mstate) : option mstate :=
  rmatch r Some s.

(** [RegExp.prototype.exec] without the g and y flags: the first start
    position, from 0 on, at which the pattern matches. *)
Fixpoint exec_from (r : regex) (fuel : nat) (s : mstate) : option mstate :=
  match match_here r s with
  | Some m => Some m
  | None =>
      match fuel, rest s with
      | S fuel', _ :: t => exec_from r fuel' (MState t (S (idx s)) [])
      | _, _ => None
      end
  end.

Definition exec (r : regex) (input : string) : option mstate :=
  let l := Str.chars input in
  exec_from r (length l) (MState l 0 []).

(** [matches[n]]: the text of group [n], [None] for undefined. *)
Fixpoint capture (n : nat) (c : list (nat * string)) : option string :=
  match c with
  | [] => None
  | (m, t) :: c' => if (m =? n)%nat then Some t else capture n c'
  end.

(** [String.prototype.split] with a pattern separator.  [acc] holds, in
    reverse, the units read since the last cut; [skip] counts the units of
    the separator just matched that are still to be passed over.  A match
    that is empty at the cut position moves on by one unit, as SplitMatcher
    does. *)
Fixpoint split_loop (r : regex) (l : list ascii) (i : nat) (acc : list ascii)
    (skip : nat) : list string :=
  match l with
  | [] => [Str.pack (rev acc)]
  | c :: t =>
      match skip with
      | S skip' => split_loop r t (S i) acc skip'
      | O =>
          match match_here r (MState l i []) with
          | Some m =>
              match idx m - i, acc with
              | O, [] => split_loop r t (S i) [c] O
              | O, _ :: _ => Str.pack (rev acc) :: split_loop r t (S i) [c] O
              | S n, _ => Str.pack (rev acc) :: split_loop r t (S i) [] n
              end
          | None => split_loop r t (S i) (c :: acc) O
          end
      end
  end.

Definition split (r : regex) (s : string) : list string :=
  match Str.chars s with
  | [] => match match_here r (MState [] 0 []) with
          | Some _ => []
          | None => [""]
          end
  | l => split_loop r l 0 [] 0
  end.

End Re.

(** ** The host document *)

Module Host.

(** An element is addressed by its index in the store. *)
Abbreviation ref := nat (only parsing).

(** A child of an element: another element of the store, or the markup that
    an assignment to [innerHTML] left there (kept as text, not parsed). *)
Inductive kid : Type :=
| KNode (r : ref)
| KMarkup (s : string).

Record node : Type := Node {
  tagName : string;
  attributes : gmap string string;
  childNodes : list kid
}.

Abbreviation heap := (list node) (only parsing).

Definition is_kid (c : ref) (k : kid) : bool :=
  match k with
  | KNode r => (r =? c)%nat
  | KMarkup _ => false
  end.

(** [document.createElement(tag)]: a fresh element, attached to nothing. *)
Definition createElement (tag : string) (h : heap) : ref * heap :=
  (length h, h ++ [Node tag ∅ []]).

Definition with_attribute (name v : string) (n : node) : node :=
  Node (tagName n) (<[name := v]> (attributes n)) (childNodes n).

Definition with_children (ks : list kid) (n : node) : node :=
  Node (tagName n) (attributes n) ks.

(** [e.setAttribute(name, v)] *)
Definition setAttribute (e : ref) (name v : string) (h : heap) : heap :=
  alter (with_attribute name v) e h.

(** [e.className = v] and [e.id = v] reflect the attributes class and id. *)
Definition set_className (e : ref) (v : string) (h : heap) : heap :=
  setAttribute e "class" v h.

Definition set_id (e : ref) (v : string) (h : heap) : heap :=
  setAttribute e "id" v h.

(** [e.innerHTML = s]: the children are replaced by what [s] holds. *)
Definition set_innerHTML (e : ref) (s : string) (h : heap) : heap :=
  alter (with_children (if String.eqb s "" then [] else [KMarkup s])) e h.

Definition without_kid (c : ref) (n : node) : node :=
  with_children (List.filter (fun k => negb (is_kid c k)) (childNodes n)) n.

(** [p.appendChild(c)]: [c] leaves the parent it had and becomes the last
    child of [p]. *)
Definition appendChild (p c : ref) (h : heap) : heap :=
  alter (fun n => with_children (childNodes n ++ [KNode c]) n) p
        (map (without_kid c) h).

Definition attribute (e : ref) (name : string) (h : heap) : option string :=
  match h !! e with
  | Some n => attributes n !! name
  | None => None
  end.

Definition children (e : ref) (h : heap) : list kid :=
  match h !! e with
  | Some n => childNodes n
  | None => []
  end.

Definition tag_of (e : ref) (h : heap) : option string :=
  tagName <$> h !! e.

End Host.

Export Host.

(** ** JavaScript values *)

#[local] Set Warnings "-register-all".

(** The values the sources handle.  An object lists its own properties in
    creation order, each key once (keys that are array indices, which the
    engine enumerates first, keep their creation place here, and no key is
    special).  A function takes element references and the host store, and
    returns its result and the store it leaves, or throws. *)
Inductive value : Type :=
| VUndef
| VNull
| VBool (b : bool)
| VNum (n : Z)
| VStr (s : string)
| VArr (l : list value)
| VObj (m : list (string * value))
| VNode (r : ref)
| VFun (f : list ref -> heap -> option (value * heap)).

Module Js.

(** ToBoolean *)
Definition truthy (v : value) : bool :=
  match v with
  | VUndef | VNull => false
  | VBool b => b
  | VNum n => negb (n =? 0)%Z
  | VStr s => negb (String.eqb s "")
  | VArr _ | VObj _ | VNode _ | VFun _ => true
  end.

(** [v == null] *)
Definition nullish (v : value) : bool :=
  match v with
  | VUndef | VNull => true
  | _ => false
  end.

(** [a ?? b] *)
Definition coalesce (a b : value) : value := if nullish a then b else a.

(** [a || b] *)
Definition or_else (a b : value) : value := if truthy a then a else b.

Definition isArray (v : value) : bool :=
  match v with
  | VArr _ => true
  | _ => false
  end.

Definition decimal (n : Z) : string := NilZero.string_of_int (Z.to_int n).
Definition index_key (i : nat) : string := NilZero.string_of_uint (Nat.to_uint i).

(** [String(v)].  An object has the text of Object.prototype.toString; the
    text of an element and of a function is the host's and the engine's, and
    stands here as a fixed word. *)
Fixpoint String (v : value) : string :=
  match v with
  | VUndef => "undefined"
  | VNull => "null"
  | VBool true => "true"
  | VBool false => "false"
  | VNum n => decimal n
  | VStr s => s
  | VArr l =>
      Str.join ","
        (map (fun x => match x with
                       | VUndef | VNull => ""
                       | _ => String x
                       end) l)
  | VObj _ => "[object Object]"
  | VNode _ => "[object HTMLElement]"
  | VFun _ => "function"
  end.

Fixpoint lookup_key (k : string) (m : list (string * value)) : option value :=
  match m with
  | [] => None
  | (k', v) :: m' => if String.eqb k' k then Some v else lookup_key k m'
  end.

(** [o[k] = v] on the property list of an object: an existing key keeps its
    place, a new key goes last. *)
Fixpoint assign (k : string) (v : value) (m : list (string * value))
    : list (string * value) :=
  match m with
  | [] => [(k, v)]
  | (k', v') :: m' =>
      if String.eqb k' k then (k, v) :: m' else (k', v') :: assign k v m'
  end.

(** [o.k] for the property names the sources read, none of which a built-in
    prototype defines: reading from undefined or null throws, and what an
    element answers is the host's. *)
Definition get (k : string) (o : value) : option value :=
  match o with
  | VUndef | VNull | VNode _ => None
  | VObj m => Some (default VUndef (lookup_key k m))
  | _ => Some VUndef
  end.

(** [o[i]] for an index. *)
Definition at_index (i : nat) (o : value) : option value :=
  match o with
  | VUndef | VNull | VNode _ => None
  | VArr l => Some (default VUndef (l !! i))
  | VStr s => Some (match String.get i s with
                    | Some c => VStr (String.String c "")
                    | None => VUndef
                    end)
  | VObj m => Some (default VUndef (lookup_key (index_key i) m))
  | _ => Some VUndef
  end.

(** [o.k = v]: an object takes the property.  The sources assign to a value
    only after they have read a truthy property from it, which only an object
    gives; the assignment to any other value has no result here (on a
    primitive it throws, the sources being modules in strict mode). *)
Definition set (k : string) (v : value) (o : value) : option value :=
  match o with
  | VObj m => Some (VObj (assign k v m))
  | _ => None
  end.

(** [Object.entries(o)] of an object. *)
Definition entries (m : list (string * value)) : value :=
  VArr (map (fun kv => VArr [VStr (fst kv); snd kv]) m).

(** The own enumerable properties that [{...v}] copies. *)
Definition own_properties (v : value) : list (string * value) :=
  match v with
  | VObj m => m
  | VArr l => imap (fun i x => (index_key i, x)) l
  | VStr s => imap (fun i c => (index_key i, VStr (String.String c ""))) (Str.chars s)
  | _ => []
  end.

(** [{...a, ...b}] *)
Definition spread2 (a b : value) : value :=
  VObj (fold_left (fun m kv => assign (fst kv) (snd kv) m)
          (own_properties a ++ own_properties b) []).

End Js.

(** ** parseDomString.js *)

Definition is_char (c : ascii) (d : ascii) : bool := (Str.code d =? Str.code c)%N.

Definition is_open_bracket (c : ascii) : bool :=
  is_char "(" c || is_char "[" c || is_char "{" c.

Definition is_close_bracket (c : ascii) : bool :=
  is_char ")" c || is_char "]" c || is_char "}" c.

Definition any_char (c : ascii) : bool := negb (Str.is_line_terminator c).

Import Re.

(** The tag: at the start of the input, an optional group 1 of one or more
    letters. *)
Definition re_tag : regex := Seq Bol (Opt (Group 1 (Plus (Class Str.is_letter)))).

(** The id: optionally a hash sign and a group 2 of one or more of
    [[a-zA-Z0-9_-]]. *)
Definition re_id : regex :=
  Opt (Seq (Class (is_char "#")) (Group 2 (Plus (Class Str.is_word)))).

(** The classes: an optional group 3 holding any number of tokens, each a
    dot and one or more of [[a-zA-Z0-9_-]]. *)
Definition re_classes : regex :=
  Opt (Group 3 (Repeat true (Seq (Class (is_char ".")) (Plus (Class Str.is_word))))).

(** The attribute block: an optional group 4 made of one opening bracket
    (round, square or curly), the shortest run of units that are not line
    terminators, and one closing bracket of any of the three kinds. *)
Definition re_attrs : regex :=
  Opt (Group 4 (Seq (Class is_open_bracket)
                 (Seq (Repeat false (Class any_char)) (Class is_close_bracket)))).

(** The content: optionally one or more spaces and a group 5 taking the
    longest run of units that are not line terminators; then the end of the
    input. *)
Definition re_content : regex :=
  Seq (Opt (Seq (Plus (Class (is_char " "))) (Group 5 (Repeat true (Class any_char)))))
      Eol.

Definition dom_regex : regex :=
  Seq re_tag (Seq re_id (Seq re_classes (Seq re_attrs re_content))).

(** The comma separator of the pairs: white space, a comma, white space. *)
Definition re_comma : regex :=
  Seq (Repeat true (Class Str.is_space))
      (Seq (Class (is_char ",")) (Repeat true (Class Str.is_space))).

(** The separator of a name and its value: a colon or an equals sign. *)
Definition re_separator : regex := Class (fun c => is_char ":" c || is_char "=" c).

(** [m?.trim() || null] *)
Definition trimmed_or_null (m : option string) : value :=
  match m with
  | Some t => Js.or_else (VStr (Str.trim t)) VNull
  | None => VNull
  end.

(** The body of the [attrPairs.forEach] callback: the attribute object after
    one pair. *)
Definition add_pair (attrs : list (string * value)) (pair : string)
    : list (string * value) :=
  if String.eqb pair "" then attrs
  else if Str.includes "=" pair || Str.includes ":" pair then
    let parts := firstn 2 (Re.split re_separator pair) in
    let name := Str.trim (default "" (parts !! 0%nat)) in
    let value := match parts !! 1%nat with
                 | Some p => VStr (Str.trim p)
                 | None => VBool true
                 end in
    Js.assign name value attrs
  else Js.assign (Str.trim pair) (VBool true) attrs.

Definition parse_attrs (rawAttrs : value) : list (string * value) :=
  match rawAttrs with
  | VStr raw =>
      if Js.truthy rawAttrs then
        let attrsContent := Str.substring_1_last raw in
        let attrPairs := Re.split re_comma attrsContent in
        fold_left add_pair attrPairs []
      else []
  | _ => []
  end.

(** The object returned for a successful match. *)
Definition fragment_of (c : list (nat * string)) : value :=
  let tag := Str.toLowerCase
               (match capture 1 c with
                | Some t => if String.eqb t "" then "div" else t
                | None => "div"
                end) in
  let id := trimmed_or_null (capture 2 c) in
  let classes := match capture 3 c with
                 | Some t => if String.eqb t "" then []
                             else map Str.trim (Str.split_char "." (Str.slice1 t))
                 | None => []
                 end in
  let rawAttrs := trimmed_or_null (capture 4 c) in
  let content := trimmed_or_null (capture 5 c) in
  let attrs := parse_attrs rawAttrs in
  VObj [("tag", VStr tag); ("id", id); ("className", VStr (Str.join " " classes));
        ("attrs", VObj attrs); ("content", content)].

(** [parseDomString(domString)] for a string. *)
Definition parseDomString (domString : string) : value :=
  match Re.exec dom_regex domString with
  | None => VNull
  | Some m => fragment_of (caps m)
  end.

(** [parseDomString(v)] for any value: only a string has [match]. *)
Definition parseDomString_of (v : value) : option value :=
  match v with
  | VStr s => Some (parseDomString s)
  | _ => None
  end.

(** ** domBuilderBasicSetup.js *)

(** The body of the [forEach] callback over the attribute pairs. *)
Definition apply_attr (element : ref) (h : heap) (attr : value) : option heap :=
  v ← Js.at_index 1 attr;
  if Js.nullish v then Some h
  else
    name ← Js.at_index 0 attr;
    Some (setAttribute element (Js.String name) (Js.String v) h).

Fixpoint forEach_attr (element : ref) (l : list value) (h : heap) : option heap :=
  match l with
  | [] => Some h
  | attr :: l' => h' ← apply_attr element h attr; forEach_attr element l' h'
  end.

(** Lines 10-12: [className] takes the value of [class] when it has none. *)
Definition resolve_alias (domBuilderItem : value) : option value :=
  cls ← Js.get "class" domBuilderItem;
  cn ← Js.get "className" domBuilderItem;
  if Js.truthy cls && negb (Js.truthy cn)
  then Js.set "className" cls domBuilderItem
  else Some domBuilderItem.

(** Lines 15-21: a single pair is wrapped, a mapping becomes its entries. *)
Definition normalize_attrs (domBuilderItem : value) : option value :=
  attrs ← Js.get "attrs" domBuilderItem;
  match attrs with
  | VArr l =>
      if negb (Js.isArray (default VUndef (l !! 0%nat)))
      then Js.set "attrs" (VArr [attrs]) domBuilderItem
      else Some domBuilderItem
  | VObj m => Js.set "attrs" (Js.entries m) domBuilderItem
  | VNode _ => None
  | _ => Some domBuilderItem
  end.

(** Lines 23-27: [(attrs ?? []).forEach(...)]; a value that is neither
    nullish nor an array has no [forEach]. *)
Definition apply_attrs (element : ref) (domBuilderItem : value) (h : heap)
    : option heap :=
  attrs ← Js.get "attrs" domBuilderItem;
  match attrs with
  | VUndef | VNull => Some h
  | VArr l => forEach_attr element l h
  | _ => None
  end.

(** The string assigned to [element.className]. *)
Definition class_text (className : value) : string :=
  match className with
  | VArr l => Str.join " " (map Js.String (List.filter Js.truthy l))
  | _ => Js.String className
  end.

(** Lines 30-34. *)
Definition apply_className (element : ref) (domBuilderItem : value) (h : heap)
    : option heap :=
  cn ← Js.get "className" domBuilderItem;
  Some (if Js.truthy cn then set_className element (class_text cn) h else h).

(** Lines 35-37. *)
Definition apply_id (element : ref) (domBuilderItem : value) (h : heap)
    : option heap :=
  id ← Js.get "id" domBuilderItem;
  Some (if Js.truthy id then set_id element (Js.String id) h else h).

(** [domBuilderBasicSetup(element, domBuilderItem)]: the store it leaves and
    the configuration object as the call leaves it (the function assigns to
    its [className] and [attrs]); the element returned is [element]. *)
Definition domBuilderBasicSetup (element : ref) (domBuilderItem : value) (h : heap)
    : option (heap * value) :=
  item1 ← resolve_alias domBuilderItem;
  item2 ← normalize_attrs item1;
  h1 ← apply_attrs element item2 h;
  h2 ← apply_className element item2 h1;
  h3 ← apply_id element item2 h2;
  Some (h3, item2).

(** ** domBuilder.js *)

(** The variables the [forEach] callback of [domBuilder] shares
    ([parent] is the parameter; [None] stands for undefined or null), and the
    host store. *)
Record loop : Type := Loop {
  parent : option ref;
  grand_parent : option ref;
  el : option ref;
  mainElement : option ref;
  dom : heap
}.

(** [if (parent) parent.appendChild(el)]: appending undefined throws. *)
Definition append_to (parent el : option ref) (h : heap) : option heap :=
  match parent with
  | None => Some h
  | Some p => e ← el; Some (appendChild p e h)
  end.

(** Lines 103-125: one segment of a tag chain.  The state is the item, the
    parent pointer, [el] and the store. *)
Definition chain_step (len : nat) (st : value * option ref * option ref * heap)
    (idx : nat) (tagItem : value) : option (value * option ref * option ref * heap) :=
  let '(item, parent, _, h) := st in
  let isLast := (S idx =? len)%nat in
  parsedItem ← parseDomString_of tagItem;
  item1 ← (if isLast then
             pa ← Js.get "attrs" parsedItem;
             ia ← Js.get "attrs" item;
             Js.set "attrs"
               (Js.spread2 (Js.coalesce pa (VObj [])) (Js.coalesce ia (VObj []))) item
           else Some item);
  ptag ← Js.get "tag" parsedItem;
  let '(e, h1) := createElement (Js.String (Js.or_else ptag (VStr "div"))) h in
  r ← domBuilderBasicSetup e
         (Js.spread2 parsedItem (if isLast then Js.coalesce item1 (VObj []) else VObj []))
         h1;
  let h2 := fst r in
  if isLast then Some (item1, parent, Some e, h2)
  else
    h3 ← append_to parent (Some e) h2;
    Some (item1, Some e, Some e, h3).

Fixpoint chain_loop (len : nat) (idx : nat) (tags : list value)
    (st : value * option ref * option ref * heap)
    : option (value * option ref * option ref * heap) :=
  match tags with
  | [] => Some st
  | tagItem :: tags' =>
      st' ← chain_step len st idx tagItem;
      chain_loop len (S idx) tags' st'
  end.

(** Lines 99-132: the element of the item is created and set up. *)
Definition create_element (item : value) (st : loop) : option (value * loop) :=
  tag ← Js.get "tag" item;
  match tag with
  | VArr tags =>
      r ← chain_loop (length tags) 0 tags (item, parent st, el st, dom st);
      let '(item', parent', el', h') := r in
      Some (item', Loop parent' (parent st) el' (mainElement st) h')
  | _ =>
      let '(e, h1) := createElement (Js.String (Js.coalesce tag (VStr "div"))) (dom st) in
      r ← domBuilderBasicSetup e item h1;
      Some (snd r, Loop (parent st) (grand_parent st) (Some e) (mainElement st) (fst r))
  end.

(** What [el.innerHTML = content] stores: null reads as the empty string. *)
Definition markup_of (content : value) : string :=
  match content with
  | VNull => ""
  | _ => Js.String content
  end.

(** Lines 135-151. *)
Definition resolve_content (item : value) (el : option ref) (h : heap) : option heap :=
  c ← Js.get "content" item;
  if Js.truthy c then
    r ← match c with
        | VFun f => f [] h
        | _ => Some (if Js.nullish c then VStr "" else VStr (Js.String c), h)
        end;
    e ← el;
    match fst r with
    | VNode n => Some (appendChild e n (snd r))
    | content => Some (set_innerHTML e (markup_of content) (snd r))
    end
  else Some h.

(** Lines 154-160, with the recursive call as a parameter.  The console
    message for a [children] that is not an array is not part of the state. *)
Definition resolve_children (recurse : list value -> option ref -> heap -> option heap)
    (item : value) (el : option ref) (h : heap) : option heap :=
  ch ← Js.get "children" item;
  match ch with
  | VArr l => recurse l el h
  | _ => Some h
  end.

(** Lines 171-173. *)
Definition run_callback (item : value) (el : option ref) (h : heap) : option heap :=
  cb ← Js.get "callback" item;
  match cb with
  | VFun f => snd <$> f (option_list el) h
  | _ => Some h
  end.

(** Lines 94-178: the body of the guarded block, for an item that is not
    nullish. *)
Definition build_item (recurse : list value -> option ref -> heap -> option heap)
    (item : value) (st : loop) : option loop :=
  r ← create_element item st;
  let '(item1, st1) := r in
  h1 ← resolve_content item1 (el st1) (dom st1);
  h2 ← resolve_children recurse item1 (el st1) h1;
  let main := match mainElement st1 with
              | None => el st1
              | Some m => Some m
              end in
  h3 ← append_to (parent st1) (el st1) h2;
  h4 ← run_callback item1 (el st1) h3;
  let parent' := match grand_parent st1 with
                 | Some g => Some g
                 | None => parent st1
                 end in
  Some (Loop parent' (grand_parent st1) (el st1) main h4).

(** Lines 88-90: a string that is not empty is replaced by its parse. *)
Definition lower (item : value) : value :=
  match item with
  | VStr s => if negb (String.eqb s "") then parseDomString s else item
  | _ => item
  end.

(** Lines 86-180: the [forEach] callback. *)
Definition step (recurse : list value -> option ref -> heap -> option heap)
    (st : loop) (item : value) : option loop :=
  let item := lower item in
  if Js.nullish item then Some st
  else
    cond ← Js.get "condition" item;
    if Js.truthy (Js.coalesce cond (VBool true)) then build_item recurse item st
    else Some st.

Fixpoint forEach_item (recurse : list value -> option ref -> heap -> option heap)
    (l : list value) (st : loop) : option loop :=
  match l with
  | [] => Some st
  | item :: l' => st' ← step recurse st item; forEach_item recurse l' st'
  end.

(** [domBuilder(structureArray, parent, {emptyParent})] with a bound on the
    depth of the recursion into [children]; [options] is reduced to the one
    key the function reads. *)
Fixpoint domBuilder_at (depth : nat) (structureArray : list value)
    (parent : option ref) (emptyParent : bool) (h : heap)
    : option (option ref * heap) :=
  match depth with
  | O => None
  | S depth' =>
      let h0 := match parent with
                | Some p => if emptyParent then set_innerHTML p "" h else h
                | None => h
                end in
      st ← forEach_item
             (fun l e h' => snd <$> domBuilder_at depth' l e false h')
             structureArray (Loop parent None None None h0);
      Some (mainElement st, dom st)
  end.

(** How deeply arrays and objects nest in a value. *)
Fixpoint nesting (v : value) : nat :=
  match v with
  | VArr l => S (list_max (map nesting l))
  | VObj m => S (list_max (map (fun kv => let '(_, x) := kv in nesting x) m))
  | _ => O
  end.

(** [domBuilder(structureArray, parent, {emptyParent})]: the bound is above
    the nesting of the array, and any such bound gives the same result (lemma
    [domBuilder_at_enough]). *)
Definition domBuilder (structureArray : list value) (parent : option ref)
    (emptyParent : bool) (h : heap) : option (option ref * heap) :=
  domBuilder_at (S (nesting (VArr structureArray))) structureArray parent emptyParent h.

(** * The vocabulary of the statements *)

(** ** The matcher *)

(** [s'] is [s] after [n] more units have been read. *)
Definition reads (s s' : mstate) : Prop :=
  exists n : nat, (n <= length (rest s))%nat /\
                  rest s' = drop n (rest s) /\ idx s' = (n + idx s)%nat.

(** ** The parser *)

(** The first units some segment of the grammar can start with: a letter
    (tag), a hash sign (id), a dot (class), an opening bracket (attribute
    block) or a space (content). *)
Definition opens_segment (c : ascii) : bool :=
  Str.is_letter c || is_char "#" c || is_char "." c || is_open_bracket c
  || is_char " " c.

(** The fragment of an input in which every segment is absent. *)
Definition default_fragment : value :=
  VObj [("tag", VStr "div"); ("id", VNull); ("className", VStr "");
        ("attrs", VObj []); ("content", VNull)].

(** ** The setup seen as a list of attribute writes *)

(** The writes of one attribute pair: none for a nullish value. *)
Definition attr_write (attr : value) : option (list (string * string)) :=
  v ← Js.at_index 1 attr;
  if Js.nullish v then Some []
  else name ← Js.at_index 0 attr; Some [(Js.String name, Js.String v)].

Fixpoint attr_writes (l : list value) : option (list (string * string)) :=
  match l with
  | [] => Some []
  | attr :: l' => w ← attr_write attr; ws ← attr_writes l'; Some (w ++ ws)
  end.

(** The writes of the pairs of [attrs], once normalised. *)
Definition pair_writes (item : value) : option (list (string * string)) :=
  attrs ← Js.get "attrs" item;
  match attrs with
  | VUndef | VNull => Some []
  | VArr l => attr_writes l
  | _ => None
  end.

(** The writes of the entries of a mapping. *)
Definition entry_writes (m : list (string * value)) : list (string * string) :=
  flat_map (fun kv => if Js.nullish (snd kv) then []
                      else [(fst kv, Js.String (snd kv))]) m.

Definition class_write (item : value) : option (list (string * string)) :=
  cn ← Js.get "className" item;
  Some (if Js.truthy cn then [("class", class_text cn)] else []).

Definition id_write (item : value) : option (list (string * string)) :=
  id ← Js.get "id" item;
  Some (if Js.truthy id then [("id", Js.String id)] else []).

(** All the writes of one call, and the item as the call leaves it. *)
Definition setup_writes (item : value) : option (list (string * string) * value) :=
  item1 ← resolve_alias item;
  item2 ← normalize_attrs item1;
  ws ← pair_writes item2;
  cw ← class_write item2;
  iw ← id_write item2;
  Some (ws ++ cw ++ iw, item2).

(** A list of writes applied to an element of the store, and to a node. *)
Definition write_all (e : ref) (ws : list (string * string)) (h : heap) : heap :=
  fold_left (fun h' kv => setAttribute e (fst kv) (snd kv) h') ws h.

Definition write_node (ws : list (string * string)) (n : node) : node :=
  fold_left (fun n' kv => with_attribute (fst kv) (snd kv) n') ws n.

(** The value the last write to [k] stores, if there is one. *)
Fixpoint last_write (k : string) (ws : list (string * string)) : option string :=
  match ws with
  | [] => None
  | (k', v) :: ws' =>
      match last_write k ws' with
      | Some v' => Some v'
      | None => if String.eqb k' k then Some v else None
      end
  end.

(** The value [attrs] holds after lines 15-21 of the setup. *)
Definition normal_attrs (attrs : value) : value :=
  match attrs with
  | VArr l => if Js.isArray (default VUndef (l !! 0%nat)) then attrs else VArr [attrs]
  | VObj m => Js.entries m
  | _ => attrs
  end.

(** The value [className] holds after lines 10-12 of the setup. *)
Definition resolved_className (cls cn : value) : value :=
  if Js.truthy cls && negb (Js.truthy cn) then cls else cn.

(** ** The builder *)

(** The class names of an element: its class attribute split at spaces. *)
Definition class_list (e : ref) (h : heap) : list string :=
  match attribute e "class" h with
  | Some c => Str.split_char " " c
  | None => []
  end.

Definition has_class (c : string) (e : ref) (h : heap) : bool :=
  existsb (String.eqb c) (class_list e h).

(** An item that is neither null nor undefined. *)
Definition present (item : value) : bool := negb (Js.nullish item).

(** The parent pointer is [p], and [grand_parent] is null or [p]. *)
Definition anchored (p : ref) (st : loop) : Prop :=
  parent st = Some p /\ (grand_parent st = None \/ grand_parent st = Some p).

(** ** Records and stores of the examples *)

(** A store that holds one div. *)
Definition one_div : heap := [Node "div" ∅ []].


(** [{ id: "x", attrs: { id: "y" } }] *)
Definition precedence_item : value :=
  VObj [("id", VStr "x"); ("attrs", VObj [("id", VStr "y")])].


(** [{ attrs: { class: "from-attrs", title: null } }] *)
Definition class_in_attrs : value :=
  VObj [("attrs", VObj [("class", VStr "from-attrs"); ("title", VNull)])].

(** [{ tag: ["div.a", "span.b"], className: "extra" }] *)
Definition chain_item : value :=
  VObj [("tag", VArr [VStr "div.a"; VStr "span.b"]); ("className", VStr "extra")].

(** [[{ tag: ["div", "span"] }, "p"]] *)
Definition orphan_chain : list value :=
  [VObj [("tag", VArr [VStr "div"; VStr "span"])]; VStr "p"].


(** A producer that creates an img element and returns it. *)
Definition img_producer : value :=
  VFun (fun _ h => let '(r, h') := createElement "img" h in Some (VNode r, h')).

(** ** The vocabulary of the further properties *)

(** [typeof v === 'function'] *)
Definition is_function (v : value) : bool :=
  match v with
  | VFun _ => true
  | _ => false
  end.

(** No upper-case ASCII letter. *)
Definition no_upper (s : string) : bool :=
  forallb (fun c => negb (Str.is_upper c)) (Str.chars s).

(** Null, or a string that is not empty and has no white space around it. *)
Definition null_or_trimmed (v : value) : Prop :=
  v = VNull \/ exists t, v = VStr t /\ t <> "" /\ Str.trim t = t.

(** The value of a parsed attribute: true, or a string with no white space
    around it. *)
Definition parsed_value (v : value) : Prop :=
  v = VBool true \/ exists t, v = VStr t /\ Str.trim t = t.

(** A list with no white space at its head. *)
Definition no_lead (l : list ascii) : Prop :=
  match l with
  | [] => True
  | c :: _ => Str.is_space c = false
  end.

(** A value that can be indexed: anything but undefined and null. *)
Definition indexable (v : value) : bool := negb (Js.nullish v).

(** [v] is an element of the host. *)
Definition is_element (v : value) : bool :=
  match v with
  | VNode _ => true
  | _ => false
  end.

(** An [attrs] that neither is an element nor has one among its entries:
    what the setup does with an element there is the host's. *)
Definition no_element (attrs : value) : bool :=
  match attrs with
  | VNode _ => false
  | VArr l => forallb (fun x => negb (is_element x)) l
  | _ => true
  end.

(** The shapes of [attrs] with which the setup completes: absent, a mapping,
    an array whose first entry is not an array (a single pair), or an array
    of indexable entries. *)
Definition attrs_accepted (attrs : value) : bool :=
  match attrs with
  | VUndef | VNull | VObj _ => true
  | VArr l =>
      if Js.isArray (default VUndef (l !! 0%nat)) then forallb indexable l else true
  | _ => false
  end.

(** An item the builder passes over: null, undefined, a string that is not
    empty and has no parse, or an object whose [condition] is neither nullish
    nor truthy. *)
Definition skipped (item : value) : bool :=
  match item with
  | VUndef | VNull => true
  | VStr s => negb (String.eqb s "") && Js.nullish (parseDomString s)
  | VObj m =>
      match Js.lookup_key "condition" m with
      | Some c => negb (Js.nullish c) && negb (Js.truthy c)
      | None => false
      end
  | _ => false
  end.

(** An item the builder does not pass over. *)
Definition kept (item : value) : bool := negb (skipped item).

(** A chain segment the parser gives no fragment for: a string with no
    match, or a value that is not a string and has no [match] method of its
    own. *)
Definition unparsed (seg : value) : bool :=
  match seg with
  | VStr s => Js.nullish (parseDomString s)
  | VObj m => negb (is_function (default VUndef (Js.lookup_key "match" m)))
  | _ => true
  end.

(** A chain segment the parser gives a fragment for. *)
Definition parsed (seg : value) : bool :=
  match seg with
  | VStr s => negb (Js.nullish (parseDomString s))
  | _ => false
  end.

(** An item that builds one element and nothing else: it is not passed over,
    its tag is not a sequence, its content is not a producer, it has no
    children array and no callback, and the setup accepts its attrs, which
    hold no element.  A string with a parse is one, and so is the empty
    string. *)
Definition leaf (item : value) : bool :=
  match lower item with
  | VUndef | VNull | VNode _ => false
  | VObj m =>
      negb (Js.isArray (default VUndef (Js.lookup_key "tag" m)))
      && negb (skipped (VObj m))
      && negb (is_function (default VUndef (Js.lookup_key "content" m)))
      && negb (Js.isArray (default VUndef (Js.lookup_key "children" m)))
      && negb (is_function (default VUndef (Js.lookup_key "callback" m)))
      && attrs_accepted (default VUndef (Js.lookup_key "attrs" m))
      && no_element (default VUndef (Js.lookup_key "attrs" m))
  | _ => true
  end.


(** The raw content a content that is not a producer leaves. *)
Definition fill (e : ref) (c : value) (h : heap) : heap :=
  if Js.truthy c then set_innerHTML e (Js.String c) h else h.

(** [if (parent) parent.appendChild(el)] for an element [e]. *)
Definition attach (p : option ref) (e : ref) (h : heap) : heap :=
  match p with
  | Some q => appendChild q e h
  | None => h
  end.

(** The children are elements created before the [n]-th. *)
Definition kids_below (n : nat) (ks : list kid) : Prop :=
  Forall (fun k => match k with KNode r => (r < n)%nat | KMarkup _ => True end) ks.

(** The raw content that [fill] leaves in a new element. *)
Definition content_kids (c : value) : list kid :=
  if Js.truthy c && negb (String.eqb (Js.String c) "") then [KMarkup (Js.String c)]
  else [].


(** One more element in the store: created with tag [tg], given the writes
    [ws] and the raw content [c], and appended to [p]. *)
Definition grow (p : option ref) (ws : list (string * string)) (c : value)
    (tg : string) (h : heap) : heap :=
  attach p (length h)
    (fill (length h) c (write_all (length h) ws (h ++ [Node tg ∅ []]))).




(** The run of class tokens of a selector: a dot and a name, for each name. *)
Definition tokens (cs : list (list ascii)) : list ascii :=
  concat (map (fun c => "."%char :: c) cs).

(** The next unit, if there is one, is outside the class [p]. *)
Definition stops (p : ascii -> bool) (r : list ascii) : Prop :=
  match r with
  | [] => True
  | d :: _ => p d = false
  end.

(** Names of the class [[a-zA-Z0-9_-]], none of them empty. *)
Definition word_names (cs : list (list ascii)) : Prop :=
  Forall (fun c => c <> [] /\ forallb Str.is_word c = true) cs.

(** The units of the id segment: a hash sign and the name, or nothing. *)
Definition id_units (i : option (list ascii)) : list ascii :=
  match i with
  | Some w => "#"%char :: w
  | None => []
  end.

(** The units of the content segment: a space and the text, or nothing. *)
Definition content_units (t : option (list ascii)) : list ascii :=
  match t with
  | Some l => " "%char :: l
  | None => []
  end.

(** A unit of an attribute name or value: not a line terminator, white
    space, a comma, a colon, an equals sign or a closing bracket. *)
Definition plain (c : ascii) : bool :=
  any_char c && negb (Str.is_space c) && negb (is_char "," c)
  && negb (is_char "=" c) && negb (is_char ":" c) && negb (is_close_bracket c).

(** The units of one attribute: the name, and an equals sign and the value
    when there is one. *)
Definition pair_units (kv : list ascii * option (list ascii)) : list ascii :=
  match snd kv with
  | Some v => fst kv ++ "="%char :: v
  | None => fst kv
  end.

(** The units between the brackets: the attributes, separated by commas. *)
Fixpoint pairs_units (ps : list (list ascii * option (list ascii))) : list ascii :=
  match ps with
  | [] => []
  | [kv] => pair_units kv
  | kv :: ps' => pair_units kv ++ ","%char :: pairs_units ps'
  end.

(** The units of the attribute block: an opening bracket, the attributes and
    a closing bracket, or nothing. *)
Definition block_units
    (b : option (ascii * list (list ascii * option (list ascii)) * ascii))
    : list ascii :=
  match b with
  | Some (o, ps, c) => o :: pairs_units ps ++ [c]
  | None => []
  end.

(** Units with no white space and no comma. *)
Definition no_comma (u : list ascii) : bool :=
  forallb (fun c => negb (Str.is_space c) && negb (is_char "," c)) u.

(** An attribute whose name is not empty and whose name and value are made
    of plain units. *)
Definition plain_pair (kv : list ascii * option (list ascii)) : Prop :=
  fst kv <> [] /\ forallb plain (fst kv) = true /\
  forall v, snd kv = Some v -> forallb plain v = true.

(** A block with brackets of the three kinds around plain attributes. *)
Definition good_block
    (b : option (ascii * list (list ascii * option (list ascii)) * ascii)) : Prop :=
  match b with
  | Some (o, ps, c) =>
      is_open_bracket o = true /\ is_close_bracket c = true /\ Forall plain_pair ps
  | None => True
  end.

(** The units of a selector: the tag, the id segment, the class tokens, the
    attribute block and the content segment. *)
Definition selector_units (T : list ascii) (I : option (list ascii))
    (cs : list (list ascii))
    (b : option (ascii * list (list ascii * option (list ascii)) * ascii))
    (t : option (list ascii)) : list ascii :=
  T ++ id_units I ++ tokens cs ++ block_units b ++ content_units t.

(** The attribute block in units. *)
Definition block_of (b : option (ascii * list (string * option string) * ascii))
    : option (ascii * list (list ascii * option (list ascii)) * ascii) :=
  match b with
  | Some (o, ps, c) =>
      Some (o, map (fun kv => (Str.chars (fst kv), Str.chars <$> snd kv)) ps, c)
  | None => None
  end.

(** The selector made of a tag, an id, class names, an attribute block and a
    text: the tag, then a hash sign and the id when there is one, then a dot
    and the name for each class, then the block when there is one (a bracket,
    the attributes separated by commas, each a name or a name, an equals sign
    and a value, and a bracket), then a space and the text when there is
    one. *)
Definition selector (tag : string) (id : option string) (classes : list string)
    (block : option (ascii * list (string * option string) * ascii))
    (text : option string) : string :=
  Str.pack (selector_units (Str.chars tag) (Str.chars <$> id) (map Str.chars classes)
              (block_of block) (Str.chars <$> text)).

(** The value of an attribute of a block: the value spelled out, or true. *)
Definition attr_value (v : option string) : value :=
  match v with
  | Some x => VStr x
  | None => VBool true
  end.

(** The object the attributes of a block make. *)
Definition block_attrs (ps : list (string * option string)) : list (string * value) :=
  fold_left (fun m kv => Js.assign (fst kv) (attr_value (snd kv)) m) ps [].

(** An attribute of a block spelled with plain units, its name not empty. *)
Definition plain_attr (kv : string * option string) : Prop :=
  fst kv <> "" /\ forallb plain (Str.chars (fst kv)) = true /\
  forall v, snd kv = Some v -> forallb plain (Str.chars v) = true.

(** ** Nested children *)

(** A nested configuration whose items each build one element: an item with
    no children array, or an object and the trees of its children array. *)
Inductive ptree : Type :=
| PLeaf (item : value)
| PNode (m : list (string * value)) (kids : list ptree).




(** The number of elements a tree builds. *)
Fixpoint tree_size (t : ptree) : nat :=
  match t with
  | PLeaf _ => 1
  | PNode _ kids => S (list_sum (map tree_size kids))
  end.

Definition forest_size (ts : list ptree) : nat := list_sum (map tree_size ts).

(** The elements of the roots of a forest built from the [n]-th on: each
    tree takes as many elements as its tree_size, its root first. *)
Fixpoint roots (n : nat) (ts : list ptree) : list nat :=
  match ts with
  | [] => []
  | t :: ts' => n :: roots (n + tree_size t) ts'
  end.











(** ** Where the embedding of the host and of the engine is exact *)

(** The model of the host takes any name as it is and refuses nothing, and
    the string form of a number, of an element and of a function is
    simplified.  The statements about what a call builds are made where the
    model and the real host and engine agree: for the names, the values and
    the nodes below. *)

(** An integer that a number holds exactly and that is printed with all its
    digits: at most 2^53 - 1 in absolute value. *)
Definition safe_integer (n : Z) : bool := (Z.abs n <=? 9007199254740991)%Z.

(** A value whose string form in the embedding is the one of the engine: no
    element and no function in it, no object with a [toString] of its own,
    and only safe integers. *)
Fixpoint printable (v : value) : bool :=
  match v with
  | VUndef | VNull | VBool _ | VStr _ => true
  | VNum n => safe_integer n
  | VArr l => forallb printable l
  | VObj m =>
      match Js.lookup_key "toString" m with
      | Some _ => false
      | None => true
      end
  | VNode _ | VFun _ => false
  end.

(** A name that the host takes as it is, for an element and for an
    attribute: a lower-case letter followed by lower-case letters, digits,
    hyphens and underscores.  The host accepts it and does not fold it; it is
    no array index and not [__proto__]. *)
Definition host_name (s : string) : bool :=
  match Str.chars s with
  | c :: cs =>
      Str.is_lower c
      && forallb (fun d => Str.is_lower d || Str.is_digit d
                           || is_char "-" d || is_char "_" d) cs
  | [] => false
  end.

(** A key that an assignment [o[k] = v] adds to a plain object as an own
    property in creation order: not [__proto__], and not beginning with a
    digit (as every array index does). *)
Definition own_key (s : string) : bool :=
  negb (String.eqb s "__proto__")
  && match Str.chars s with
     | c :: _ => negb (Str.is_digit c)
     | [] => true
     end.

(** An attribute that sets nothing (its value is null or undefined), or has
    a host name and a printable value. *)
Definition hosted_pair (name v : value) : bool :=
  Js.nullish v
  || match name with
     | VStr s => host_name s && printable v
     | _ => false
     end.

(** A [name, value] pair of an [attrs] array. *)
Definition hosted_entry (x : value) : bool :=
  match x with
  | VArr [] | VArr [_] => true
  | VArr (name :: v :: _) => hosted_pair name v
  | _ => false
  end.

(** An [attrs] (absent, a mapping, a single pair or an array of pairs) whose
    attributes are all hosted. *)
Definition hosted_attrs (attrs : value) : bool :=
  match attrs with
  | VUndef | VNull => true
  | VObj m => forallb (fun kv => hosted_pair (VStr (fst kv)) (snd kv)) m
  | VArr l =>
      if Js.isArray (default VUndef (l !! 0%nat)) then forallb hosted_entry l
      else hosted_entry (VArr l)
  | _ => false
  end.








(** An entry of a [className] sequence: a name, or what a condition that
    fails leaves in its place (undefined, null, false, the empty string). *)
Definition class_entry (v : value) : bool :=
  match v with
  | VStr _ | VUndef | VNull | VBool false => true
  | _ => false
  end.

(** The names of a [className] sequence: its strings that are not empty. *)
Fixpoint given_names (l : list value) : list string :=
  match l with
  | [] => []
  | VStr s :: l' => if String.eqb s "" then given_names l' else s :: given_names l'
  | _ :: l' => given_names l'
  end.

(** The class that a [className] spells: a string that is not empty spells
    itself, and a sequence spells its names separated by single spaces. *)
Definition spells (className : value) (s : string) : Prop :=
  (className = VStr s /\ s <> "") \/
  (exists l, className = VArr l /\ forallb class_entry l = true /\
             s = Str.join " " (given_names l)).


(** * Properties *)

(** Closed facts are settled by evaluation, one conjunct at a time. *)
Ltac by_evaluation :=
  repeat match goal with |- _ /\ _ => split end; vm_compute; reflexivity.

(** ** The matcher never needs more iterations than it is given *)

Lemma reads_refl (s : mstate) : reads s s.
Proof. exists 0%nat. split; [lia|]. now rewrite drop_0. Qed.

Lemma reads_trans (s1 s2 s3 : mstate) : reads s1 s2 -> reads s2 s3 -> reads s1 s3.
Proof.
  intros (n & Hn & Hr & Hi) (m & Hm & Hr' & Hi').
  exists (n + m)%nat. rewrite Hr in Hm, Hr'. rewrite length_drop in Hm.
  rewrite drop_drop in Hr'. repeat split; [lia|exact Hr'|lia].
Qed.

Lemma reads_caps (s s' : mstate) (c : list (nat * string)) :
  reads s s' -> reads s (MState (rest s') (idx s') c).
Proof. intros (n & H). now exists n. Qed.

Lemma reads_length (s s' : mstate) :
  reads s s' -> idx s' <> idx s -> (S (length (rest s')) <= length (rest s))%nat.
Proof.
  intros (n & Hn & Hr & Hi) Hne. rewrite Hr, length_drop. lia.
Qed.

Lemma reads_end (s s' : mstate) : reads s s' -> rest s = [] -> idx s' = idx s.
Proof.
  intros (n & Hn & _ & Hi) He. rewrite He in Hn. simpl in Hn. lia.
Qed.

Lemma repeat_loop_ext (m : cont -> cont) (greedy : bool) (k1 k2 : cont)
    (s0 : mstate) :
  (forall k1' k2' s, reads s0 s ->
      (forall s', reads s s' -> k1' s' = k2' s') -> m k1' s = m k2' s) ->
  (forall s', reads s0 s' -> k1 s' = k2 s') ->
  forall fuel s, reads s0 s ->
    repeat_loop m greedy k1 fuel s = repeat_loop m greedy k2 fuel s.
Proof.
  intros Hm Hk fuel. induction fuel as [|fuel IH]; intros s Hs; simpl.
  - now apply Hk.
  - rewrite (Hk s Hs).
    rewrite (Hm _ (fun s' => if (idx s' =? idx s)%nat then None
                             else repeat_loop m greedy k2 fuel s') s Hs);
      [reflexivity|].
    intros s' Hs'. destruct (idx s' =? idx s)%nat; [reflexivity|].
    apply IH. now apply (reads_trans _ _ _ Hs).
Qed.

(** The continuation of a match is only ever asked about states that read
    on from the state of the match. *)
Lemma rmatch_ext (r : regex) (k1 k2 : cont) (s : mstate) :
  (forall s', reads s s' -> k1 s' = k2 s') -> rmatch r k1 s = rmatch r k2 s.
Proof.
  revert k1 k2 s.
  induction r as [|p|r1 IH1 r2 IH2|g r IH|r IH|r IH|n r IH| |];
    intros k1 k2 s Hk; cbn [rmatch].
  - apply Hk, reads_refl.
  - destruct (rest s) as [|c t] eqn:E; [reflexivity|].
    destruct (p c); [|reflexivity]. apply Hk.
    exists 1%nat. rewrite E. simpl. repeat split; lia.
  - apply IH1. intros s' Hs'. apply IH2. intros s'' Hs''.
    apply Hk. now apply (reads_trans _ _ _ Hs').
  - apply (repeat_loop_ext _ _ _ _ s); [|exact Hk|apply reads_refl].
    intros k1' k2' s1 _ Hk'. now apply IH.
  - apply IH. intros s' Hs'.
    apply (repeat_loop_ext _ _ _ _ s'); [| |apply reads_refl].
    + intros k1' k2' s1 _ Hk'. now apply IH.
    + intros s'' Hs''. apply Hk. now apply (reads_trans _ _ _ Hs').
  - rewrite (Hk s (reads_refl s)).
    rewrite (IH _ (fun s' => if (idx s' =? idx s)%nat then None else k2 s') s);
      [reflexivity|].
    intros s' Hs'. destruct (idx s' =? idx s)%nat; [reflexivity|]. now apply Hk.
  - apply IH. intros s' Hs'. apply Hk. now apply reads_caps.
  - destruct (idx s =? 0)%nat; [|reflexivity]. apply Hk, reads_refl.
  - destruct (rest s); [|reflexivity]. apply Hk, reads_refl.
Qed.

Lemma repeat_loop_fails (m : cont -> cont) (greedy : bool) (fuel : nat) (s : mstate) :
  (forall k1 k2 s1, (forall s', reads s1 s' -> k1 s' = k2 s') -> m k1 s1 = m k2 s1) ->
  (forall s1, m (fun _ => None) s1 = None) ->
  repeat_loop m greedy (fun _ => None) fuel s = None.
Proof.
  intros Hm Hn. revert s. induction fuel as [|fuel IH]; intros s; simpl; [reflexivity|].
  rewrite (Hm _ (fun _ => None) s).
  - rewrite Hn. now destruct greedy.
  - intros s' _. destruct (idx s' =? idx s)%nat; [reflexivity|]. apply IH.
Qed.

Lemma rmatch_fails (r : regex) (s : mstate) : rmatch r (fun _ => None) s = None.
Proof.
  revert s. induction r as [|p|r1 IH1 r2 IH2|g r IH|r IH|r IH|n r IH| |];
    intros s; cbn [rmatch].
  - reflexivity.
  - destruct (rest s) as [|c t]; [reflexivity|]. now destruct (p c).
  - rewrite (rmatch_ext r1 _ (fun _ => None)); [apply IH1|]. intros s' _. apply IH2.
  - apply repeat_loop_fails; [|exact IH]. intros k1 k2 s1. apply rmatch_ext.
  - rewrite (rmatch_ext r _ (fun _ => None)); [apply IH|]. intros s' _.
    apply repeat_loop_fails; [|exact IH]. intros k1 k2 s1. apply rmatch_ext.
  - rewrite (rmatch_ext r _ (fun _ => None)); [now rewrite IH|].
    intros s' _. now destruct (idx s' =? idx s)%nat.
  - exact (IH s).
  - now destruct (idx s =? 0)%nat.
  - now destruct (rest s).
Qed.

(** With no input left an iteration cannot read a unit, so it fails. *)
Lemma iteration_at_end (r : regex) (k : cont) (s : mstate) :
  rest s = [] ->
  rmatch r (fun s' => if (idx s' =? idx s)%nat then None else k s') s = None.
Proof.
  intros He. rewrite (rmatch_ext r _ (fun _ => None)); [apply rmatch_fails|].
  intros s' Hs'. rewrite (reads_end _ _ Hs' He). now rewrite Nat.eqb_refl.
Qed.

(** The star of [rmatch] runs with as many iterations as units are left; any
    larger number gives the same result. *)
Lemma repeat_loop_enough (r : regex) (greedy : bool) (k : cont) (f1 f2 : nat)
    (s : mstate) :
  (length (rest s) <= f1)%nat -> (length (rest s) <= f2)%nat ->
  repeat_loop (rmatch r) greedy k f1 s = repeat_loop (rmatch r) greedy k f2 s.
Proof.
  assert (Hend : forall f s0, rest s0 = [] ->
            repeat_loop (rmatch r) greedy k f s0 = k s0).
  { intros [|f] s0 He; simpl; [reflexivity|].
    rewrite (iteration_at_end r _ s0 He). destruct greedy; simpl; [reflexivity|].
    now destruct (k s0). }
  revert f2 s. induction f1 as [|f1 IH]; intros f2 s H1 H2.
  - assert (He : rest s = []) by (destruct (rest s); [reflexivity|simpl in H1; lia]).
    now rewrite !Hend.
  - destruct f2 as [|f2].
    + assert (He : rest s = []) by (destruct (rest s); [reflexivity|simpl in H2; lia]).
      now rewrite !Hend.
    + simpl.
      rewrite (rmatch_ext r _
                 (fun s' => if (idx s' =? idx s)%nat then None
                            else repeat_loop (rmatch r) greedy k f2 s') s);
        [reflexivity|].
      intros s' Hs'. destruct (idx s' =? idx s)%nat eqn:E; [reflexivity|].
      apply Nat.eqb_neq in E. pose proof (reads_length _ _ Hs' E).
      apply IH; lia.
Qed.

(** ** The parser *)

Lemma exec_anchored (fuel : nat) (s : mstate) :
  idx s <> 0%nat -> exec_from dom_regex fuel s = None.
Proof.
  revert s. induction fuel as [|fuel IH]; intros s Hs.
  - simpl. unfold match_here, dom_regex, re_tag. simpl.
    destruct (idx s); [congruence|]. simpl. now destruct (rest s).
  - simpl. unfold match_here, dom_regex, re_tag. simpl.
    destruct (idx s) eqn:E; [congruence|]. simpl.
    destruct (rest s); [reflexivity|]. now apply IH.
Qed.

(** A segment whose first unit cannot be read is passed over. *)
Section Skip.

Variables (c : ascii) (t : list ascii) (i : nat) (cs : list (nat * string)).
Variable k : cont.

Let here : mstate := MState (c :: t) i cs.

Lemma skip_tag : Str.is_letter c = false -> rmatch re_tag k (MState (c :: t) 0 cs) = k (MState (c :: t) 0 cs).
Proof. intros H. unfold re_tag. cbn -[Str.is_letter]. now rewrite H. Qed.

Lemma skip_id : is_char "#" c = false -> rmatch re_id k here = k here.
Proof. intros H. unfold re_id, here. cbn -[is_char]. now rewrite H. Qed.

Lemma skip_classes : is_char "." c = false -> rmatch re_classes k here = k here.
Proof.
  intros H. unfold re_classes, here. cbn -[is_char]. rewrite H.
  cbn. now rewrite Nat.eqb_refl.
Qed.

Lemma skip_attrs : is_open_bracket c = false -> rmatch re_attrs k here = k here.
Proof. intros H. unfold re_attrs, here. cbn -[is_open_bracket]. now rewrite H. Qed.

Lemma no_content : is_char " " c = false -> rmatch re_content k here = None.
Proof. intros H. unfold re_content, here. cbn -[is_char]. now rewrite H. Qed.

End Skip.

Lemma no_match_at_start (c : ascii) (t : list ascii) :
  opens_segment c = false ->
  match_here dom_regex (MState (c :: t) 0 []) = None.
Proof.
  unfold opens_segment. intros H.
  destruct (Str.is_letter c) eqn:E1; [discriminate|].
  destruct (is_char "#" c) eqn:E2; [discriminate|].
  destruct (is_char "." c) eqn:E3; [discriminate|].
  destruct (is_open_bracket c) eqn:E4; [discriminate|].
  destruct (is_char " " c) eqn:E5; [discriminate|].
  unfold match_here, dom_regex.
  change (rmatch (Seq re_tag ?r) ?k ?s) with (rmatch re_tag (rmatch r k) s).
  rewrite skip_tag by assumption.
  change (rmatch (Seq re_id ?r) ?k ?s) with (rmatch re_id (rmatch r k) s).
  rewrite skip_id by assumption.
  change (rmatch (Seq re_classes ?r) ?k ?s) with (rmatch re_classes (rmatch r k) s).
  rewrite skip_classes by assumption.
  change (rmatch (Seq re_attrs ?r) ?k ?s) with (rmatch re_attrs (rmatch r k) s).
  rewrite skip_attrs by assumption.
  now apply no_content.
Qed.

(** C5, the claim as stated fails: the input "!" has no match and the parser
    returns null. *)
Lemma C5_bang_yields_null : parseDomString "!" = VNull.
Proof. vm_compute. reflexivity. Qed.

(** C5, amended: the parser returns null exactly when the anchored pattern
    has no match, and that happens: every input whose first unit is not a
    letter, a hash sign, a dot, an opening bracket or a space has no match.
    The empty input has one and yields the defaults (tag div, no id, no
    class, no attribute, no content). *)
Theorem C5_null_exactly_without_match :
  parseDomString "" = default_fragment /\
  (forall s : string, parseDomString s = VNull <-> Re.exec dom_regex s = None) /\
  (forall (c : ascii) (s : string),
      opens_segment c = false -> parseDomString (String.String c s) = VNull).
Proof.
  split; [vm_compute; reflexivity|]. split.
  - intros s. unfold parseDomString.
    destruct (Re.exec dom_regex s); [|tauto].
    unfold fragment_of. split; discriminate.
  - intros c s H. unfold parseDomString, Re.exec. cbn [Str.chars list_ascii_of_string].
    cbn [length exec_from]. rewrite no_match_at_start by assumption.
    cbn [rest idx]. now rewrite exec_anchored.
Qed.

(** The third part of C5 at the input "!". *)
Lemma C5_null_exactly_without_match_witness :
  opens_segment "!" = false /\ parseDomString "!" = VNull.
Proof.
  split; [reflexivity|].
  exact (proj2 (proj2 C5_null_exactly_without_match) "!"%char "" eq_refl).
Defined.

(** C7, at the failing input: the value of a pair is cut at its second
    separator, here "b" and not "b:c". *)
Theorem C7_value_cut_at_second_separator :
  parseDomString "a(x:b:c)" =
    VObj [("tag", VStr "a"); ("id", VNull); ("className", VStr "");
          ("attrs", VObj [("x", VStr "b")]); ("content", VNull)]
  /\ add_pair [] "x:b:c" = [("x", VStr "b")]
  /\ add_pair [] " y = 2 " = [("y", VStr "2")]
  /\ add_pair [] " z " = [("z", VBool true)].
Proof. by_evaluation. Qed.

(** ** Property lists *)

Lemma lookup_assign (k k' : string) (v : value) (m : list (string * value)) :
  Js.lookup_key k (Js.assign k' v m) =
    if String.eqb k' k then Some v else Js.lookup_key k m.
Proof.
  induction m as [|[k0 v0] m IH]; simpl.
  - reflexivity.
  - destruct (String.eqb k0 k') eqn:E0; simpl.
    + apply String.eqb_eq in E0. subst k0.
      now destruct (String.eqb k' k).
    + rewrite IH. destruct (String.eqb k' k) eqn:E1; [|reflexivity].
      apply String.eqb_eq in E1. subst k'. now rewrite E0.
Qed.

Lemma get_set (k k' : string) (v o o' : value) :
  Js.set k' v o = Some o' ->
  Js.get k o' = if String.eqb k' k then Some v else Js.get k o.
Proof.
  destruct o; simpl; try discriminate. intros [= <-]. simpl.
  rewrite lookup_assign. now destruct (String.eqb k' k).
Qed.

Lemma get_set_other (k k' : string) (v o o' : value) :
  Js.set k' v o = Some o' -> k' <> k -> Js.get k o' = Js.get k o.
Proof.
  intros H Hk. rewrite (get_set _ _ _ _ _ H).
  destruct (String.eqb k' k) eqn:E; [|reflexivity].
  now apply String.eqb_eq in E.
Qed.

Lemma get_set_same (k : string) (v o o' : value) :
  Js.set k v o = Some o' -> Js.get k o' = Some v.
Proof. intros H. rewrite (get_set _ _ _ _ _ H). now rewrite String.eqb_refl. Qed.

(** ** The setup as a list of attribute writes *)

Lemma write_all_app (e : ref) (a b : list (string * string)) (h : heap) :
  write_all e (a ++ b) h = write_all e b (write_all e a h).
Proof. unfold write_all. now rewrite fold_left_app. Qed.

Lemma apply_attr_write (e : ref) (h : heap) (attr : value) :
  apply_attr e h attr = (fun ws => write_all e ws h) <$> attr_write attr.
Proof.
  unfold apply_attr, attr_write.
  destruct (Js.at_index 1 attr) as [v|]; simpl; [|reflexivity].
  destruct (Js.nullish v); simpl; [reflexivity|].
  now destruct (Js.at_index 0 attr).
Qed.

Lemma forEach_attr_writes (e : ref) (l : list value) (h : heap) :
  forEach_attr e l h = (fun ws => write_all e ws h) <$> attr_writes l.
Proof.
  revert h. induction l as [|a l IH]; intros h; simpl; [reflexivity|].
  rewrite apply_attr_write.
  destruct (attr_write a) as [w|]; simpl; [|reflexivity].
  rewrite IH. destruct (attr_writes l) as [ws|]; simpl; [|reflexivity].
  now rewrite write_all_app.
Qed.

Lemma setup_by_writes (e : ref) (item : value) (h : heap) :
  domBuilderBasicSetup e item h =
    (fun r => (write_all e (fst r) h, snd r)) <$> setup_writes item.
Proof.
  unfold domBuilderBasicSetup, setup_writes.
  destruct (resolve_alias item) as [item1|]; simpl; [|reflexivity].
  destruct (normalize_attrs item1) as [item2|]; simpl; [|reflexivity].
  assert (Ha : apply_attrs e item2 h =
               (fun ws => write_all e ws h) <$> pair_writes item2).
  { unfold apply_attrs, pair_writes.
    destruct (Js.get "attrs" item2) as [a|]; simpl; [|reflexivity].
    destruct a; simpl; try reflexivity. apply forEach_attr_writes. }
  rewrite Ha. destruct (pair_writes item2) as [ws|]; simpl; [|reflexivity].
  unfold apply_className, class_write, apply_id, id_write.
  destruct (Js.get "className" item2) as [cn|]; simpl; [|reflexivity].
  destruct (Js.get "id" item2) as [id|]; simpl; [|reflexivity].
  rewrite !write_all_app.
  destruct (Js.truthy cn), (Js.truthy id); reflexivity.
Qed.

(** ** Writes on one element *)

Lemma write_node_frame (ws : list (string * string)) (n : node) :
  tagName (write_node ws n) = tagName n /\
  childNodes (write_node ws n) = childNodes n.
Proof.
  revert n. induction ws as [|[k v] ws IH]; intros n; simpl; [easy|].
  destruct (IH (with_attribute k v n)) as [-> ->]. easy.
Qed.

Lemma write_node_lookup (ws : list (string * string)) (n : node) (k : string) :
  attributes (write_node ws n) !! k =
    match last_write k ws with
    | Some v => Some v
    | None => attributes n !! k
    end.
Proof.
  revert n. induction ws as [|[k' v] ws IH]; intros n; simpl; [reflexivity|].
  unfold write_node in IH. rewrite IH.
  destruct (last_write k ws); [reflexivity|]. simpl.
  destruct (String.eqb k' k) eqn:E.
  - apply String.eqb_eq in E. subst. apply lookup_insert_eq.
  - apply String.eqb_neq in E. now apply lookup_insert_ne.
Qed.



Lemma write_all_alter (e : ref) (ws : list (string * string)) (h : heap) :
  write_all e ws h = alter (write_node ws) e h.
Proof.
  revert h. induction ws as [|[k v] ws IH]; intros h.
  - simpl. symmetry. apply list_alter_id. reflexivity.
  - change (write_all e ((k, v) :: ws) h)
      with (write_all e ws (setAttribute e k v h)).
    rewrite IH. unfold setAttribute. rewrite list_alter_alter_eq.
    reflexivity.
Qed.


Lemma attribute_write_all (e : ref) (ws : list (string * string)) (h : heap)
    (k : string) :
  is_Some (h !! e) ->
  attribute e k (write_all e ws h) =
    match last_write k ws with
    | Some v => Some v
    | None => attribute e k h
    end.
Proof.
  intros [n Hn]. unfold attribute.
  rewrite write_all_alter, list_lookup_alter_eq, Hn. simpl.
  apply write_node_lookup.
Qed.

Lemma children_write_all (e e' : ref) (ws : list (string * string)) (h : heap) :
  children e' (write_all e ws h) = children e' h.
Proof.
  unfold children. rewrite write_all_alter.
  destruct (decide (e = e')) as [->|Hne].
  - rewrite list_lookup_alter_eq. destruct (h !! e'); simpl; [|reflexivity].
    apply write_node_frame.
  - now rewrite list_lookup_alter_ne.
Qed.

Lemma last_write_app (k : string) (a b : list (string * string)) :
  last_write k (a ++ b) =
    match last_write k b with
    | Some v => Some v
    | None => last_write k a
    end.
Proof.
  induction a as [|[k' v] a IH]; simpl.
  - now destruct (last_write k b).
  - rewrite IH. now destruct (last_write k b).
Qed.

(** ** What the setup does to its configuration object *)

Lemma resolve_alias_spec (item item1 : value) :
  resolve_alias item = Some item1 ->
  (forall k, k <> "className" -> Js.get k item1 = Js.get k item) /\
  exists cls cn, Js.get "class" item = Some cls /\
                 Js.get "className" item = Some cn /\
                 Js.get "className" item1 = Some (resolved_className cls cn).
Proof.
  unfold resolve_alias, resolved_className. intros H.
  destruct (Js.get "class" item) as [cls|] eqn:Ec; simpl in H; [|discriminate].
  destruct (Js.get "className" item) as [cn|] eqn:En; simpl in H; [|discriminate].
  destruct (Js.truthy cls && negb (Js.truthy cn)) eqn:Eb.
  - split.
    + intros k Hk. now apply (get_set_other _ _ _ _ _ H).
    + exists cls, cn. rewrite Eb. repeat split.
      now apply (get_set_same _ _ _ _ H).
  - injection H as <-. split; [reflexivity|]. exists cls, cn. now rewrite Eb.
Qed.

Lemma normalize_attrs_spec (item item2 : value) :
  normalize_attrs item = Some item2 ->
  (forall k, k <> "attrs" -> Js.get k item2 = Js.get k item) /\
  exists attrs, Js.get "attrs" item = Some attrs /\
                Js.get "attrs" item2 = Some (normal_attrs attrs).
Proof.
  unfold normalize_attrs, normal_attrs. intros H.
  destruct (Js.get "attrs" item) as [attrs|] eqn:Ea; simpl in H; [|discriminate].
  destruct attrs; try (injection H as <-; split; [reflexivity|]; eauto; fail);
    try discriminate.
  - destruct (Js.isArray (default VUndef (l !! 0%nat))) eqn:E0; simpl in H.
    + injection H as <-. split; [reflexivity|].
      exists (VArr l). now rewrite E0.
    + split.
      * intros k Hk. now apply (get_set_other _ _ _ _ _ H).
      * exists (VArr l). rewrite E0. split; [reflexivity|].
        now apply (get_set_same _ _ _ _ H).
  - split.
    + intros k Hk. now apply (get_set_other _ _ _ _ _ H).
    + eexists. split; [reflexivity|]. now apply (get_set_same _ _ _ _ H).
Qed.

Lemma setup_writes_item (item item' : value) (ws : list (string * string)) :
  setup_writes item = Some (ws, item') ->
  exists item1, resolve_alias item = Some item1 /\ normalize_attrs item1 = Some item' /\
    exists pw cw iw, pair_writes item' = Some pw /\ class_write item' = Some cw /\
                     id_write item' = Some iw /\ ws = pw ++ cw ++ iw.
Proof.
  unfold setup_writes. intros H.
  destruct (resolve_alias item) as [item1|] eqn:E1; simpl in H; [|discriminate].
  destruct (normalize_attrs item1) as [item2|] eqn:E2; simpl in H; [|discriminate].
  destruct (pair_writes item2) as [pw|] eqn:Ep; simpl in H; [|discriminate].
  destruct (class_write item2) as [cw|] eqn:Ecw; simpl in H; [|discriminate].
  destruct (id_write item2) as [iw|] eqn:Ei; simpl in H; [|discriminate].
  injection H as <- <-. exists item1. split; [reflexivity|]. split; [exact E2|].
  now exists pw, cw, iw.
Qed.


Lemma setup_item_fields (e : ref) (item item' : value) (h h' : heap) :
  domBuilderBasicSetup e item h = Some (h', item') ->
  exists ws cls cn attrs id,
    h' = write_all e ws h /\
    Js.get "class" item = Some cls /\ Js.get "className" item = Some cn /\
    Js.get "attrs" item = Some attrs /\ Js.get "id" item = Some id /\
    Js.get "className" item' = Some (resolved_className cls cn) /\
    Js.get "attrs" item' = Some (normal_attrs attrs) /\
    (forall k, k <> "className" -> k <> "attrs" -> Js.get k item' = Js.get k item) /\
    exists pw,
      pair_writes item' = Some pw /\
      ws = pw
           ++ (if Js.truthy (resolved_className cls cn)
               then [("class", class_text (resolved_className cls cn))] else [])
           ++ (if Js.truthy id then [("id", Js.String id)] else []).
Proof.
  rewrite setup_by_writes. intros H.
  destruct (setup_writes item) as [[ws it]|] eqn:Ew; simpl in H; [|discriminate].
  injection H as <- <-.
  destruct (setup_writes_item _ _ _ Ew)
    as (item1 & Hr & Hn & pw & cw & iw & Hp & Hc & Hi & ->).
  destruct (resolve_alias_spec _ _ Hr) as (Hf1 & cls & cn & Hcls & Hcn & Hcn1).
  destruct (normalize_attrs_spec _ _ Hn) as (Hf2 & attrs & Ha & Ha2).
  assert (Hid : Js.get "id" it = Js.get "id" item).
  { rewrite Hf2, Hf1; [reflexivity|discriminate|discriminate]. }
  unfold id_write in Hi. rewrite Hid in Hi.
  destruct (Js.get "id" item) as [id|] eqn:Eid; simpl in Hi; [|discriminate].
  injection Hi as <-.
  unfold class_write in Hc. rewrite Hf2, Hcn1 in Hc by discriminate.
  simpl in Hc. injection Hc as <-.
  exists (pw ++ (if Js.truthy (resolved_className cls cn)
                 then [("class", class_text (resolved_className cls cn))] else [])
             ++ (if Js.truthy id then [("id", Js.String id)] else [])),
         cls, cn, attrs, id.
  split; [reflexivity|]. split; [exact Hcls|]. split; [exact Hcn|].
  split; [rewrite <- Ha; symmetry; apply Hf1; discriminate|].
  split; [reflexivity|].
  split; [rewrite Hf2, Hcn1; [reflexivity|discriminate]|].
  split; [exact Ha2|].
  split; [intros k Hk1 Hk2; rewrite Hf2 by congruence; now apply Hf1|].
  now exists pw.
Qed.

Lemma setup_record_frame (e : ref) (item item' : value) (h h' : heap) (k : string) :
  domBuilderBasicSetup e item h = Some (h', item') ->
  k <> "attrs" -> k <> "className" -> Js.get k item' = Js.get k item.
Proof.
  intros H Hk1 Hk2.
  destruct (setup_item_fields _ _ _ _ _ H)
    as (ws & cls & cn & attrs & id & _ & _ & _ & _ & _ & _ & _ & Hf & _).
  now apply Hf.
Qed.




(** ** Precedence *)

Lemma last_write_id_only (k : string) (id : value) :
  k <> "id" ->
  last_write k (if Js.truthy id then [("id", Js.String id)] else []) = None.
Proof.
  intros Hk. destruct (Js.truthy id); [|reflexivity].
  cbn [last_write].
  destruct (String.eqb "id" k) eqn:E; [|reflexivity].
  apply String.eqb_eq in E. congruence.
Qed.

Lemma given_names_truthy (l : list value) :
  forallb class_entry l = true ->
  map Js.String (List.filter Js.truthy l) = given_names l.
Proof.
  induction l as [|v l IH]; [reflexivity|]. cbn [forallb].
  intros H. apply andb_prop in H as [Hv Hl]. specialize (IH Hl).
  destruct v as [| |[]|n|s|l0|m|r|f]; try discriminate; cbn; try exact IH.
  destruct (String.eqb s ""); cbn; [exact IH|now rewrite IH].
Qed.

(** A className that spells a class is truthy, and the text the setup
    assigns for it is that class. *)
Lemma spells_class_text (v : value) (s : string) :
  spells v s -> Js.truthy v = true /\ class_text v = s.
Proof.
  intros [[-> Hs]|(l & -> & Hl & ->)].
  - split; [|reflexivity]. cbn. apply negb_true_iff. now apply String.eqb_neq.
  - split; [reflexivity|]. cbn [class_text]. now rewrite given_names_truthy.
Qed.

(** C8: in a call of the setup that completes on an element of the store, a
    truthy [id] of the record is the id the element ends with, and the class
    the element ends with is the one that [className] spells (or, when
    [className] is not truthy, the one that [class] spells): the string
    itself, or the names of the sequence separated by single spaces, whatever
    [attrs] holds.  In particular building [{ id: "x", attrs: { id: "y" } }]
    yields an element whose id is "x", and building
    [{ className: ["a", false, "b"], attrs: { class: "z", id: "y" }, id: "x" }]
    one whose class is "a b" and whose id is "x". *)
Theorem C8_object_level_id_and_className_win :
  (forall (e : ref) (item item' : value) (h h' : heap),
      is_Some (h !! e) ->
      domBuilderBasicSetup e item h = Some (h', item') ->
      (forall id, Js.get "id" item = Some id -> Js.truthy id = true ->
                  printable id = true ->
                  attribute e "id" h' = Some (Js.String id)) /\
      (forall cn s, Js.get "className" item = Some cn -> spells cn s ->
                    attribute e "class" h' = Some s) /\
      (forall cn cls s, Js.get "className" item = Some cn -> Js.truthy cn = false ->
                        Js.get "class" item = Some cls -> spells cls s ->
                        attribute e "class" h' = Some s)) /\
  (exists h' : heap,
      domBuilder [precedence_item] None false [] = Some (Some 0%nat, h') /\
      attribute 0 "id" h' = Some "x") /\
  (exists h' : heap,
      domBuilder [VObj [("className", VArr [VStr "a"; VBool false; VStr "b"]);
                        ("attrs", VObj [("class", VStr "z"); ("id", VStr "y")]);
                        ("id", VStr "x")]] None false [] = Some (Some 0%nat, h') /\
      attribute 0 "class" h' = Some "a b" /\ attribute 0 "id" h' = Some "x").
Proof.
  split; [|split].
  - intros e item item' h h' He H.
    destruct (setup_item_fields _ _ _ _ _ H)
      as (ws & cls & cn & attrs & id & -> & Hcls & Hcn & _ & Hid & _ & _ & _
          & pw & _ & ->).
    split; [|split].
    + intros id' Hid' Ht _. rewrite Hid in Hid'. injection Hid' as <-.
      rewrite attribute_write_all by assumption.
      rewrite !last_write_app, Ht. simpl. reflexivity.
    + intros cn' s Hcn' Hsp. rewrite Hcn in Hcn'. injection Hcn' as <-.
      destruct (spells_class_text _ _ Hsp) as [Ht <-].
      rewrite attribute_write_all by assumption.
      rewrite !last_write_app, last_write_id_only by discriminate.
      unfold resolved_className. rewrite Ht, andb_false_r. simpl.
      rewrite Ht. reflexivity.
    + intros cn' cls' s Hcn' Hf Hcls' Hsp.
      rewrite Hcn in Hcn'. injection Hcn' as <-.
      rewrite Hcls in Hcls'. injection Hcls' as <-.
      destruct (spells_class_text _ _ Hsp) as [Ht <-].
      rewrite attribute_write_all by assumption.
      rewrite !last_write_app, last_write_id_only by discriminate.
      unfold resolved_className. rewrite Ht, Hf. simpl.
      rewrite Ht. reflexivity.
  - eexists. split; vm_compute; reflexivity.
  - eexists. split; [vm_compute; reflexivity|]. split; vm_compute; reflexivity.
Qed.

(** C8 at the record [{ class: ["a", "", "b"], attrs: { class: "z" } }] and
    one div: the alias spells the class "a b". *)
Lemma C8_object_level_id_and_className_win_witness :
  exists (h' : heap) (item' : value),
    domBuilderBasicSetup 0
      (VObj [("class", VArr [VStr "a"; VStr ""; VStr "b"]);
             ("attrs", VObj [("class", VStr "z")])]) one_div = Some (h', item') /\
    attribute 0 "class" h' = Some "a b".
Proof.
  eexists _, _. split; [vm_compute; reflexivity|].
  refine (proj2 (proj2 (proj1 C8_object_level_id_and_className_win 0%nat
                   (VObj [("class", VArr [VStr "a"; VStr ""; VStr "b"]);
                          ("attrs", VObj [("class", VStr "z")])])
                   _ one_div _ _ eq_refl))
            VUndef (VArr [VStr "a"; VStr ""; VStr "b"]) "a b" eq_refl eq_refl eq_refl _).
  - now exists (Node "div" ∅ []).
  - right. exists [VStr "a"; VStr ""; VStr "b"]. repeat split.
Defined.

(** ** A second call *)






(** ** The class attribute without className *)


Lemma attr_writes_entries (m : list (string * value)) :
  attr_writes (map (fun kv => VArr [VStr (fst kv); snd kv]) m) = Some (entry_writes m).
Proof.
  induction m as [|[k v] m IH]; simpl; [reflexivity|].
  rewrite IH. unfold attr_write. simpl.
  destruct (Js.nullish v); reflexivity.
Qed.

Lemma last_write_absent (k : string) (m : list (string * value)) :
  k ∉ map fst m -> last_write k (entry_writes m) = None.
Proof.
  induction m as [|[k' v] m IH]; simpl; [reflexivity|].
  intros Hn. apply not_elem_of_cons in Hn as [Hk Hm].
  unfold entry_writes in *. simpl. rewrite last_write_app, (IH Hm).
  destruct (Js.nullish v); [reflexivity|]. cbn [last_write].
  destruct (String.eqb k' k) eqn:E; [|reflexivity].
  apply String.eqb_eq in E. congruence.
Qed.




(** ** The builder *)

(** C4, the claim as stated fails: the span built for the last segment has
    the class extra and has not the class b of its segment. *)
Lemma C4_span_loses_parsed_class :
  exists h' : heap,
    domBuilder [chain_item] None false [] = Some (Some 1%nat, h') /\
    tag_of 1 h' = Some "span" /\
    has_class "extra" 1 h' = true /\
    has_class "b" 1 h' = false.
Proof. eexists. by_evaluation. Qed.

(** C4, amended: building the single item
    [{ tag: ["div.a", "span.b"], className: "extra" }] creates a div whose
    class list is exactly a, with exactly one child, a span; the class list
    of the span is exactly extra (the className of the record replaces the
    class parsed from the segment); the span is the element returned.  Under
    a parent the div becomes the child of the parent. *)
Theorem C4_chain_outer_className_replaces :
  domBuilder [chain_item] None false [] =
    Some (Some 1%nat,
          [Node "div" {["class" := "a"]} [KNode 1];
           Node "span" {["class" := "extra"]} []])
  /\ domBuilder [chain_item] (Some 0%nat) false [Node "body" ∅ []] =
    Some (Some 2%nat,
          [Node "body" ∅ [KNode 1];
           Node "div" {["class" := "a"]} [KNode 2];
           Node "span" {["class" := "extra"]} []])
  /\ class_list 0 [Node "div" {["class" := "a"]} [KNode 1];
                   Node "span" {["class" := "extra"]} []] = ["a"]
  /\ class_list 1 [Node "div" {["class" := "a"]} [KNode 1];
                   Node "span" {["class" := "extra"]} []] = ["extra"].
Proof. by_evaluation. Qed.

(** *** Null and undefined items *)

Lemma step_nullish (recurse : list value -> option ref -> heap -> option heap)
    (st : loop) (item : value) :
  Js.nullish item = true -> step recurse st item = Some st.
Proof. destruct item; simpl; try discriminate; reflexivity. Qed.

Lemma forEach_item_present
    (recurse : list value -> option ref -> heap -> option heap)
    (l : list value) (st : loop) :
  forEach_item recurse (List.filter present l) st = forEach_item recurse l st.
Proof.
  revert st. induction l as [|item l IH]; intros st; simpl; [reflexivity|].
  unfold present at 1. destruct (Js.nullish item) eqn:E; simpl.
  - rewrite (step_nullish _ _ _ E). simpl. apply IH.
  - destruct (step recurse st item); simpl; [apply IH|reflexivity].
Qed.

Lemma nesting_present (l : list value) :
  list_max (map nesting (List.filter present l)) = list_max (map nesting l).
Proof.
  induction l as [|item l IH]; simpl; [reflexivity|].
  unfold present at 1. destruct item; simpl; rewrite IH; reflexivity.
Qed.

(** C2, at the failing input: null and undefined items are skipped, in any
    array and under any parent, but the empty string is not: built under a
    body it creates a div, appends it to the body and returns it. *)
Theorem C2_empty_string_builds_a_div :
  (forall (l : list value) (parent : option ref) (emptyParent : bool) (h : heap),
      domBuilder (List.filter present l) parent emptyParent h =
      domBuilder l parent emptyParent h) /\
  domBuilder [VNull; VUndef] (Some 0%nat) false [Node "body" ∅ []] =
    Some (None, [Node "body" ∅ []]) /\
  domBuilder [VStr ""] (Some 0%nat) false [Node "body" ∅ []] =
    Some (Some 1%nat, [Node "body" ∅ [KNode 1]; Node "div" ∅ []]).
Proof.
  split; [|by_evaluation].
  intros l p ep h. unfold domBuilder.
  cbn [nesting]. rewrite nesting_present.
  cbn [domBuilder_at]. now rewrite forEach_item_present.
Qed.

(** *** The parent pointer *)

Lemma create_element_pointers (item item1 : value) (st st1 : loop) :
  create_element item st = Some (item1, st1) ->
  grand_parent st1 = parent st \/
  (grand_parent st1 = grand_parent st /\ parent st1 = parent st).
Proof.
  unfold create_element. intros H.
  destruct (Js.get "tag" item) as [tag|]; simpl in H; [|discriminate].
  destruct tag;
    try (unfold createElement in H; cbn [fst snd] in H;
         destruct (domBuilderBasicSetup _ item _) as [done_setup|]; simpl in H;
         [injection H as <- <-; right; split; reflexivity|discriminate]).
  destruct (chain_loop _ _ _ _) as [[[[item' parent'] el'] h']|]; simpl in H;
    [|discriminate].
  injection H as <- <-. now left.
Qed.

Lemma build_item_anchored
    (recurse : list value -> option ref -> heap -> option heap)
    (p : ref) (item : value) (st st' : loop) :
  anchored p st -> build_item recurse item st = Some st' -> anchored p st'.
Proof.
  unfold build_item. intros [Hp Hg] H.
  destruct (create_element item st) as [[item1 st1]|] eqn:Ec; simpl in H;
    [|discriminate].
  destruct (resolve_content _ _ _) as [h1|]; simpl in H; [|discriminate].
  destruct (resolve_children _ _ _ _) as [h2|]; simpl in H; [|discriminate].
  destruct (append_to _ _ _) as [h3|]; simpl in H; [|discriminate].
  destruct (run_callback _ _ _) as [h4|]; simpl in H; [|discriminate].
  injection H as <-. unfold anchored. simpl.
  destruct (create_element_pointers _ _ _ _ Ec) as [Hc|[Hc1 Hc2]].
  - rewrite Hc, Hp. split; [reflexivity|now right].
  - rewrite Hc1, Hc2. destruct Hg as [Hg|Hg]; rewrite Hg.
    + split; [exact Hp|now left].
    + split; [reflexivity|now right].
Qed.

Lemma forEach_item_anchored
    (recurse : list value -> option ref -> heap -> option heap)
    (p : ref) (l : list value) (st st' : loop) :
  anchored p st -> forEach_item recurse l st = Some st' -> anchored p st'.
Proof.
  revert st. induction l as [|item l IH]; intros st Ha H; simpl in H.
  - now injection H as <-.
  - destruct (step recurse st item) as [st1|] eqn:Es; simpl in H; [|discriminate].
    apply (IH st1); [|exact H]. clear H IH.
    unfold step in Es.
    destruct (Js.nullish _); [now injection Es as <-|].
    destruct (Js.get "condition" _) as [c|]; simpl in Es; [|discriminate].
    destruct (Js.truthy _); [|now injection Es as <-].
    now apply (build_item_anchored _ _ _ _ _ Ha Es).
Qed.

(** C3, at the failing input: in a call with a parent the parent pointer is
    the parent of the call after every item, chain or not.  In a call with no
    parent it is not restored: after the chain item [{ tag: ["div", "span"] }]
    the pointer is the div of the chain, and the next item, "p", is appended
    to that div. *)
Theorem C3_parent_not_restored_without_parent :
  (forall (recurse : list value -> option ref -> heap -> option heap)
          (l : list value) (p : ref) (h : heap) (st' : loop),
      forEach_item recurse l (Loop (Some p) None None None h) = Some st' ->
      parent st' = Some p) /\
  (parent <$> forEach_item (fun _ _ h => Some h) (take 1 orphan_chain)
                (Loop None None None None [])) = Some (Some 0%nat) /\
  domBuilder orphan_chain None false [] =
    Some (Some 1%nat,
          [Node "div" ∅ [KNode 1; KNode 2]; Node "span" ∅ []; Node "p" ∅ []]).
Proof.
  split; [|by_evaluation].
  intros recurse l p h st' H.
  assert (Ha : anchored p (Loop (Some p) None None None h))
    by (split; [reflexivity|now left]).
  apply (forEach_item_anchored recurse p l _ st' Ha H).
Qed.

(** *** Content *)

Lemma chain_step_frame (len idx : nat) (tagItem item item' : value)
    (p p' el el' : option ref) (h h' : heap) (k : string) :
  chain_step len (item, p, el, h) idx tagItem = Some (item', p', el', h') ->
  k <> "attrs" -> Js.get k item' = Js.get k item.
Proof.
  unfold chain_step, createElement. intros H Hk.
  apply bind_Some in H as (parsed & _ & H).
  apply bind_Some in H as (item1 & Hi & H).
  apply bind_Some in H as (ptag & _ & H).
  apply bind_Some in H as (r & _ & H).
  destruct (S idx =? len)%nat.
  - injection H as <- _ _ _.
    apply bind_Some in Hi as (pa & _ & Hi).
    apply bind_Some in Hi as (ia & _ & Hi).
    now apply (get_set_other _ _ _ _ _ Hi).
  - apply bind_Some in H as (h3 & _ & H).
    injection H as <- _ _ _. now injection Hi as <-.
Qed.

Lemma chain_loop_frame (len : nat) (tags : list value) (idx : nat)
    (item item' : value) (p p' el el' : option ref) (h h' : heap) (k : string) :
  chain_loop len idx tags (item, p, el, h) = Some (item', p', el', h') ->
  k <> "attrs" -> Js.get k item' = Js.get k item.
Proof.
  revert idx item p el h.
  induction tags as [|t tags IH]; intros idx item p el h H Hk.
  - now injection H as <- _ _ _.
  - cbn [chain_loop] in H.
    apply bind_Some in H as ([[[item1 p1] el1] h1] & Hs & H).
    rewrite (IH _ _ _ _ _ H Hk).
    now apply (chain_step_frame _ _ _ _ _ _ _ _ _ _ _ _ Hs).
Qed.

Lemma create_element_frame (item item1 : value) (st st1 : loop) (k : string) :
  create_element item st = Some (item1, st1) ->
  k <> "attrs" -> k <> "className" -> Js.get k item1 = Js.get k item.
Proof.
  unfold create_element, createElement. intros H Hk1 Hk2.
  apply bind_Some in H as (tag & _ & H).
  destruct tag;
    try (apply bind_Some in H as ([h2 it2] & Hb & H);
         injection H as <- _;
         apply (setup_record_frame _ _ _ _ _ _ Hb); assumption).
  apply bind_Some in H as ([[[item' parent'] el'] h'] & Hc & H).
  injection H as <- _.
  now apply (chain_loop_frame _ _ _ _ _ _ _ _ _ _ _ _ Hc).
Qed.


(** A host node given directly as content is not appended: a string form of
    it becomes the raw content. *)
Example content_node_is_stringified :
  exists (h' : heap) (s : string),
    domBuilder [VObj [("tag", VStr "p"); ("content", VNode 0)]] None false
               [Node "img" ∅ []] = Some (Some 1%nat, h') /\
    children 1 h' = [KMarkup s] /\ children 0 h' = [].
Proof. eexists _, _. split; [vm_compute; reflexivity|]. split; reflexivity. Qed.

(** The content of four items, built with no parent: markup, a number, a
    producer of an img element, and the empty string. *)
Example content_of_four_items :
  domBuilder [VObj [("tag", VStr "p"); ("content", VStr "<b>hi</b>")]] None false [] =
    Some (Some 0%nat, [Node "p" ∅ [KMarkup "<b>hi</b>"]]) /\
  domBuilder [VObj [("tag", VStr "p"); ("content", VNum 7)]] None false [] =
    Some (Some 0%nat, [Node "p" ∅ [KMarkup "7"]]) /\
  domBuilder [VObj [("tag", VStr "p"); ("content", img_producer)]] None false [] =
    Some (Some 0%nat, [Node "p" ∅ [KNode 1]; Node "img" ∅ []]) /\
  domBuilder [VObj [("tag", VStr "p"); ("content", VStr "")]] None false [] =
    Some (Some 0%nat, [Node "p" ∅ []]).
Proof. by_evaluation. Qed.

(** *** The bound on the recursion is never reached *)

Lemma nesting_lookup (k : string) (v : value) (m : list (string * value)) :
  Js.lookup_key k m = Some v -> (nesting v < nesting (VObj m))%nat.
Proof.
  cbn [nesting]. induction m as [|[k' v'] m IH]; simpl; [discriminate|].
  destruct (String.eqb k' k).
  - intros [= ->]. lia.
  - intros H. specialize (IH H). lia.
Qed.

Lemma nesting_children (item : value) (l : list value) :
  Js.get "children" (lower item) = Some (VArr l) ->
  (nesting (VArr l) < nesting item)%nat.
Proof.
  destruct item; simpl; try discriminate.
  - destruct (negb (String.eqb s "")); [|discriminate].
    unfold parseDomString. now destruct (Re.exec dom_regex s).
  - destruct (Js.lookup_key "children" m) as [v|] eqn:E; simpl; [|discriminate].
    intros [= ->]. now apply (nesting_lookup _ _ _ E).
Qed.

Lemma nesting_elem (item : value) (l : list value) :
  In item l -> (nesting item <= list_max (map nesting l))%nat.
Proof.
  induction l as [|x l IH]; simpl; [tauto|].
  intros [->|H]; [lia|]. specialize (IH H). lia.
Qed.

Lemma build_item_ext
    (r1 r2 : list value -> option ref -> heap -> option heap)
    (item : value) (st : loop) :
  (forall l, Js.get "children" item = Some (VArr l) ->
             forall e h, r1 l e h = r2 l e h) ->
  build_item r1 item st = build_item r2 item st.
Proof.
  intros Hr. unfold build_item.
  destruct (create_element item st) as [[item1 st1]|] eqn:Ec; [|reflexivity].
  cbn [mbind option_bind].
  destruct (resolve_content item1 (el st1) (dom st1)) as [h1|]; [|reflexivity].
  cbn [mbind option_bind].
  assert (Hch : resolve_children r1 item1 (el st1) h1 =
                resolve_children r2 item1 (el st1) h1).
  { unfold resolve_children.
    rewrite (create_element_frame _ _ _ _ "children" Ec) by discriminate.
    destruct (Js.get "children" item) as [ch|] eqn:E; [|reflexivity].
    cbn [mbind option_bind]. destruct ch; try reflexivity. now apply Hr. }
  now rewrite Hch.
Qed.

Lemma forEach_item_ext
    (r1 r2 : list value -> option ref -> heap -> option heap)
    (l : list value) (st : loop) :
  (forall item l', In item l -> Js.get "children" (lower item) = Some (VArr l') ->
                   forall e h, r1 l' e h = r2 l' e h) ->
  forEach_item r1 l st = forEach_item r2 l st.
Proof.
  revert st. induction l as [|item l IH]; intros st Hr; [reflexivity|].
  cbn [forEach_item].
  assert (Hs : step r1 st item = step r2 st item).
  { unfold step. destruct (Js.nullish (lower item)); [reflexivity|].
    destruct (Js.get "condition" (lower item)) as [c|]; [|reflexivity].
    cbn [mbind option_bind]. destruct (Js.truthy _); [|reflexivity].
    apply build_item_ext. intros l' Hl'. apply (Hr item l'); [now left|exact Hl']. }
  rewrite Hs. destruct (step r2 st item) as [st1|]; [|reflexivity].
  cbn [mbind option_bind]. apply IH.
  intros item' l' Hin. apply Hr. now right.
Qed.

(** Any bound above the nesting of the array gives the same result: the
    recursion into [children] ends before the bound is used up. *)
Lemma domBuilder_at_enough (d1 d2 : nat) (l : list value) (p : option ref)
    (emptyParent : bool) (h : heap) :
  (nesting (VArr l) < d1)%nat -> (nesting (VArr l) < d2)%nat ->
  domBuilder_at d1 l p emptyParent h = domBuilder_at d2 l p emptyParent h.
Proof.
  revert d2 l p emptyParent h.
  induction d1 as [|d1 IH]; intros d2 l p ep h H1 H2; [lia|].
  destruct d2 as [|d2]; [lia|].
  cbn [domBuilder_at].
  rewrite (forEach_item_ext _ (fun l0 e h' => snd <$> domBuilder_at d2 l0 e false h')
             l); [reflexivity|].
  intros item l' Hin Hl' e h'.
  pose proof (nesting_children _ _ Hl') as Hn.
  pose proof (nesting_elem _ _ Hin) as Hm.
  cbn [nesting] in H1, H2.
  rewrite (IH d2 l' e false h'); [reflexivity| |]; lia.
Qed.

Lemma domBuilder_at_domBuilder (d : nat) (l : list value) (p : option ref)
    (emptyParent : bool) (h : heap) :
  (nesting (VArr l) < d)%nat ->
  domBuilder_at d l p emptyParent h = domBuilder l p emptyParent h.
Proof. intros H. unfold domBuilder. apply domBuilder_at_enough; lia. Qed.

(** * Further properties of the three functions *)

(** ** What the parser returns *)

Lemma lower_char_not_upper (c : ascii) : Str.is_upper (Str.lower_char c) = false.
Proof. destruct c as [[] [] [] [] [] [] [] []]; reflexivity. Qed.

Lemma chars_pack (l : list ascii) : Str.chars (Str.pack l) = l.
Proof. apply list_ascii_of_string_of_list_ascii. Qed.

Lemma pack_chars (s : string) : Str.pack (Str.chars s) = s.
Proof. apply string_of_list_ascii_of_string. Qed.

Lemma toLowerCase_no_upper (s : string) : no_upper (Str.toLowerCase s) = true.
Proof.
  unfold no_upper, Str.toLowerCase. rewrite chars_pack.
  induction (Str.chars s) as [|c l IH]; simpl; [reflexivity|].
  now rewrite lower_char_not_upper, IH.
Qed.

Lemma toLowerCase_nonempty (s : string) : s <> "" -> Str.toLowerCase s <> "".
Proof.
  destruct s as [|c s]; [congruence|]. intros _. unfold Str.toLowerCase.
  simpl. discriminate.
Qed.

Lemma drop_space_no_lead (l : list ascii) : no_lead (Str.drop_space l).
Proof.
  induction l as [|c l IH]; simpl; [exact I|].
  destruct (Str.is_space c) eqn:E; [exact IH|exact E].
Qed.

Lemma drop_space_fixed (l : list ascii) : no_lead l -> Str.drop_space l = l.
Proof. destruct l as [|c l]; simpl; [reflexivity|]. now intros ->. Qed.

Lemma drop_space_keeps_last (a : list ascii) (c : ascii) :
  Str.is_space c = false -> exists a', Str.drop_space (a ++ [c]) = a' ++ [c].
Proof.
  intros Hc. induction a as [|d a IH]; simpl.
  - rewrite Hc. now exists [].
  - destruct (Str.is_space d); [exact IH|]. now exists (d :: a).
Qed.

(** What [trim] keeps has no white space at either end. *)
Lemma trim_ends (l : list ascii) :
  let kept := rev (Str.drop_space (rev (Str.drop_space l))) in
  no_lead kept /\ no_lead (rev kept).
Proof.
  simpl. split.
  - pose proof (drop_space_no_lead l) as H.
    destruct (Str.drop_space l) as [|c t]; [exact I|]. simpl in H |- *.
    destruct (drop_space_keeps_last (rev t) c H) as [a' ->].
    now rewrite rev_app_distr.
  - rewrite rev_involutive. apply drop_space_no_lead.
Qed.

Lemma trim_idempotent (s : string) : Str.trim (Str.trim s) = Str.trim s.
Proof.
  unfold Str.trim. rewrite chars_pack.
  destruct (trim_ends (Str.chars s)) as [H1 H2]. cbv zeta in H1, H2.
  rewrite (drop_space_fixed _ H1), (drop_space_fixed _ H2).
  now rewrite rev_involutive.
Qed.

Lemma trimmed_or_null_spec (m : option string) : null_or_trimmed (trimmed_or_null m).
Proof.
  destruct m as [t|]; [|now left]. unfold trimmed_or_null, Js.or_else.
  simpl. destruct (String.eqb (Str.trim t) "") eqn:E; simpl; [now left|].
  right. exists (Str.trim t). split; [reflexivity|].
  split; [now apply String.eqb_neq|apply trim_idempotent].
Qed.

Lemma assign_key_in (k k' : string) (v : value) (m : list (string * value)) :
  k' ∈ map fst (Js.assign k v m) -> k' = k \/ k' ∈ map fst m.
Proof.
  induction m as [|[k0 v0] m IH]; simpl.
  - intros H. apply list_elem_of_singleton in H. now left.
  - destruct (String.eqb k0 k) eqn:E; simpl; intros H.
    + apply String.eqb_eq in E. subst k0. now right.
    + apply elem_of_cons in H as [->|H]; [right; left|].
      destruct (IH H) as [->|H']; [now left|right; now right].
Qed.

Lemma assign_NoDup (k : string) (v : value) (m : list (string * value)) :
  NoDup (map fst m) -> NoDup (map fst (Js.assign k v m)).
Proof.
  induction m as [|[k0 v0] m IH]; simpl; intros H.
  - apply NoDup_singleton.
  - apply NoDup_cons in H as [Hk Hm].
    destruct (String.eqb k0 k) eqn:E; simpl.
    + apply String.eqb_eq in E. subst k0. now apply NoDup_cons.
    + apply String.eqb_neq in E. apply NoDup_cons. split; [|now apply IH].
      intros Hin. destruct (assign_key_in _ _ _ _ Hin); congruence.
Qed.

Lemma assign_Forall (P : string * value -> Prop) (k : string) (v : value)
    (m : list (string * value)) :
  P (k, v) -> Forall P m -> Forall P (Js.assign k v m).
Proof.
  intros Hv. induction m as [|[k0 v0] m IH]; simpl; intros H.
  - now constructor.
  - apply Forall_cons in H as [H0 Hm].
    destruct (String.eqb k0 k); constructor; auto.
Qed.

(** The attribute object keeps each name once, with a value that is true or a
    trimmed string, through every pair. *)
Lemma add_pair_keeps (attrs : list (string * value)) (pair : string) :
  NoDup (map fst attrs) /\ Forall (fun kv => parsed_value (snd kv)) attrs ->
  NoDup (map fst (add_pair attrs pair)) /\
  Forall (fun kv => parsed_value (snd kv)) (add_pair attrs pair).
Proof.
  intros [Hn Hf]. unfold add_pair.
  destruct (String.eqb pair ""); [now split|].
  destruct (Str.includes "=" pair || Str.includes ":" pair).
  - split; [now apply assign_NoDup|]. apply assign_Forall; [|exact Hf].
    simpl. destruct (_ !! 1%nat) as [p|]; [|now left].
    right. exists (Str.trim p). split; [reflexivity|apply trim_idempotent].
  - split; [now apply assign_NoDup|]. apply assign_Forall; [now left|exact Hf].
Qed.

Lemma parse_attrs_keeps (rawAttrs : value) :
  NoDup (map fst (parse_attrs rawAttrs)) /\
  Forall (fun kv => parsed_value (snd kv)) (parse_attrs rawAttrs).
Proof.
  assert (Hfold : forall pairs acc,
             NoDup (map fst acc) /\ Forall (fun kv => parsed_value (snd kv)) acc ->
             NoDup (map fst (fold_left add_pair pairs acc)) /\
             Forall (fun kv => parsed_value (snd kv)) (fold_left add_pair pairs acc)).
  { induction pairs as [|p pairs IH]; intros acc H; simpl; [exact H|].
    apply IH. now apply add_pair_keeps. }
  assert (Hnil : NoDup (map fst ([] : list (string * value))) /\
                 Forall (fun kv : string * value => parsed_value (snd kv)) []).
  { split; constructor. }
  unfold parse_attrs. destruct rawAttrs; try exact Hnil.
  destruct (Js.truthy (VStr s)); [|exact Hnil]. now apply Hfold.
Qed.

(** X1: whatever the input, the parser returns null or an object with the
    five keys tag, id, className, attrs and content, in which the tag is not
    empty and has no upper-case letter, id and content are null or a string
    that is not empty and has no white space around it, and attrs lists each
    name once with a value that is true or a trimmed string. *)
Theorem parseDomString_shape (domString : string) :
  parseDomString domString = VNull \/
  exists (tag cls : string) (id content : value) (attrs : list (string * value)),
    parseDomString domString =
      VObj [("tag", VStr tag); ("id", id); ("className", VStr cls);
            ("attrs", VObj attrs); ("content", content)] /\
    tag <> "" /\ no_upper tag = true /\
    null_or_trimmed id /\ null_or_trimmed content /\
    NoDup (map fst attrs) /\ Forall (fun kv => parsed_value (snd kv)) attrs.
Proof.
  unfold parseDomString.
  destruct (Re.exec dom_regex domString) as [m|]; [right|now left].
  unfold fragment_of. eexists _, _, _, _, _. split; [reflexivity|].
  split; [|split; [apply toLowerCase_no_upper|]].
  - apply toLowerCase_nonempty.
    destruct (capture 1 (caps m)) as [t|]; [|discriminate].
    destruct (String.eqb t "") eqn:E; [discriminate|]. now apply String.eqb_neq.
  - split; [apply trimmed_or_null_spec|]. split; [apply trimmed_or_null_spec|].
    apply parse_attrs_keeps.
Qed.

(** ** Selectors *)

Lemma rmatch_class_cons (p : ascii -> bool) (k : cont) (c : ascii)
    (t : list ascii) (i : nat) (cs : list (nat * string)) :
  rmatch (Class p) k (MState (c :: t) i cs) =
    if p c then k (MState t (S i) cs) else None.
Proof. reflexivity. Qed.

Lemma repeat_class_until (p : ascii -> bool) (k : cont) (l r : list ascii)
    (cs : list (nat * string)) (res : mstate) :
  forall (i fuel : nat),
  forallb p l = true -> stops p r -> (length l <= fuel)%nat ->
  k (MState r (length l + i) cs) = Some res ->
  repeat_loop (rmatch (Class p)) true k fuel (MState (l ++ r) i cs) = Some res.
Proof.
  induction l as [|c l IH]; intros i fuel Hp Hr Hf Hk.
  - cbn [app length Nat.add] in *. destruct fuel; cbn [repeat_loop]; [exact Hk|].
    destruct r as [|d r]; [cbn; now rewrite Hk|].
    rewrite rmatch_class_cons. cbn in Hr. rewrite Hr. cbn. now rewrite Hk.
  - cbn [forallb] in Hp. apply andb_prop in Hp as [Hc Hl].
    destruct fuel as [|fuel]; [cbn in Hf; lia|].
    cbn [app repeat_loop]. rewrite rmatch_class_cons, Hc. cbn [rest idx caps].
    assert (Hi : (S i =? i)%nat = false) by (apply Nat.eqb_neq; lia).
    rewrite Hi, (IH (S i) fuel Hl Hr); [reflexivity|cbn in Hf; lia|].
    cbn [length] in Hk.
    now replace (length l + S i)%nat with (S (length l) + i)%nat by lia.
Qed.

Lemma plus_class_until (p : ascii -> bool) (k : cont) (l r : list ascii)
    (cs : list (nat * string)) (res : mstate) (i : nat) :
  l <> [] -> forallb p l = true -> stops p r ->
  k (MState r (length l + i) cs) = Some res ->
  rmatch (Plus (Class p)) k (MState (l ++ r) i cs) = Some res.
Proof.
  destruct l as [|c l]; [congruence|]. intros _ Hp Hr Hk.
  cbn [forallb] in Hp. apply andb_prop in Hp as [Hc Hl].
  change (rmatch (Plus (Class p)) k (MState ((c :: l) ++ r) i cs))
    with (rmatch (Class p)
            (fun s' => repeat_loop (rmatch (Class p)) true k (length (rest s')) s')
            (MState (c :: l ++ r) i cs)).
  rewrite rmatch_class_cons, Hc. cbn [rest].
  apply repeat_class_until; [exact Hl|exact Hr|rewrite length_app; lia|].
  cbn [length] in Hk.
  now replace (length l + S i)%nat with (S (length l) + i)%nat by lia.
Qed.

Lemma tokens_stop (cs : list (list ascii)) (r : list ascii) :
  stops Str.is_word r -> stops Str.is_word (tokens cs ++ r).
Proof. destruct cs; [easy|reflexivity]. Qed.

Lemma class_stops (p : ascii -> bool) (k : cont) (r : list ascii) (i : nat)
    (cs : list (nat * string)) :
  stops p r -> rmatch (Class p) k (MState r i cs) = None.
Proof.
  destruct r as [|d r]; [reflexivity|]. cbn [stops]. intros H.
  now rewrite rmatch_class_cons, H.
Qed.

Lemma tokens_cons (c : list ascii) (cs : list (list ascii)) (r : list ascii) :
  tokens (c :: cs) ++ r = "."%char :: c ++ (tokens cs ++ r).
Proof. unfold tokens. cbn [map concat app]. now rewrite <- app_assoc. Qed.

Lemma class_tokens_run (k : cont) (res : mstate) (caps0 : list (nat * string))
    (r : list ascii) :
  stops (is_char ".") r -> stops Str.is_word r ->
  forall (cs : list (list ascii)) (i fuel : nat),
  word_names cs -> (length (tokens cs) <= fuel)%nat ->
  k (MState r (length (tokens cs) + i) caps0) = Some res ->
  repeat_loop (rmatch (Seq (Class (is_char ".")) (Plus (Class Str.is_word))))
    true k fuel (MState (tokens cs ++ r) i caps0) = Some res.
Proof.
  intros Hr1 Hr2.
  induction cs as [|c cs IH]; intros i fuel Hw Hf Hk.
  - cbn [tokens map concat app length Nat.add] in Hk |- *.
    destruct fuel; cbn [repeat_loop]; [exact Hk|].
    change (rmatch (Seq (Class (is_char ".")) (Plus (Class Str.is_word))) ?kk
              (MState r i caps0))
      with (rmatch (Class (is_char ".")) (rmatch (Plus (Class Str.is_word)) kk)
              (MState r i caps0)).
    rewrite (class_stops _ _ _ _ _ Hr1). exact Hk.
  - apply Forall_cons in Hw as [[Hc Hcw] Hw].
    rewrite tokens_cons.
    change (tokens (c :: cs)) with ("."%char :: c ++ tokens cs) in Hf, Hk.
    destruct fuel as [|fuel]; [cbn in Hf; lia|].
    cbn [length] in Hf, Hk. rewrite length_app in Hf, Hk.
    cbn [repeat_loop].
    set (kk := fun s' : mstate =>
                 if (idx s' =? idx (MState ("."%char :: c ++ (tokens cs ++ r)) i caps0))%nat
                 then None
                 else repeat_loop
                        (rmatch (Seq (Class (is_char ".")) (Plus (Class Str.is_word))))
                        true k fuel s').
    change (rmatch (Seq (Class (is_char ".")) (Plus (Class Str.is_word))) kk
              (MState ("."%char :: c ++ (tokens cs ++ r)) i caps0))
      with (rmatch (Class (is_char ".")) (rmatch (Plus (Class Str.is_word)) kk)
              (MState ("."%char :: c ++ (tokens cs ++ r)) i caps0)).
    rewrite rmatch_class_cons.
    change (is_char "." "."%char) with true. cbn iota.
    rewrite (plus_class_until Str.is_word kk c (tokens cs ++ r) caps0 res (S i) Hc Hcw
               (tokens_stop cs r Hr2)); [reflexivity|].
    unfold kk. cbn [idx].
    assert (Hi : (length c + S i =? i)%nat = false) by (apply Nat.eqb_neq; lia).
    rewrite Hi. apply IH; [exact Hw|lia|].
    now replace (length (tokens cs) + (length c + S i))%nat
      with (S (length c + length (tokens cs)) + i)%nat by lia.
Qed.

Lemma rmatch_Seq (r1 r2 : regex) (k : cont) (s : mstate) :
  rmatch (Seq r1 r2) k s = rmatch r1 (rmatch r2 k) s.
Proof. reflexivity. Qed.

Lemma rmatch_Opt (r : regex) (k : cont) (s : mstate) :
  rmatch (Opt r) k s =
    orelse (rmatch r (fun s' => if (idx s' =? idx s)%nat then None else k s') s) (k s).
Proof. reflexivity. Qed.

Lemma rmatch_Group (n : nat) (r : regex) (k : cont) (s : mstate) :
  rmatch (Group n r) k s =
    rmatch r (fun s' => k (MState (rest s') (idx s')
                             ((n, Str.pack (firstn (idx s' - idx s) (rest s))) :: caps s')))
      s.
Proof. reflexivity. Qed.

Lemma rmatch_Repeat (g : bool) (r : regex) (k : cont) (s : mstate) :
  rmatch (Repeat g r) k s = repeat_loop (rmatch r) g k (length (rest s)) s.
Proof. reflexivity. Qed.

(** The class segment: absent when there is no name, group 3 otherwise. *)
Lemma classes_segment (k : cont) (res : mstate) (cs : list (list ascii))
    (r : list ascii) (i : nat) (caps0 : list (nat * string)) :
  word_names cs -> stops (is_char ".") r -> stops Str.is_word r ->
  k (MState r (length (tokens cs) + i)
       (match cs with
        | [] => []
        | _ :: _ => [(3%nat, Str.pack (tokens cs))]
        end ++ caps0)) = Some res ->
  rmatch re_classes k (MState (tokens cs ++ r) i caps0) = Some res.
Proof.
  intros Hw Hr1 Hr2 Hk. unfold re_classes.
  rewrite rmatch_Opt, rmatch_Group, rmatch_Repeat. cbn [rest idx caps].
  destruct cs as [|c cs].
  - cbn [tokens map concat app length Nat.add] in Hk |- *.
    assert (Hn : forall kk, repeat_loop
                   (rmatch (Seq (Class (is_char ".")) (Plus (Class Str.is_word))))
                   true kk (length r) (MState r i caps0) = kk (MState r i caps0)).
    { intros kk. destruct (length r); cbn [repeat_loop]; [reflexivity|].
      change (rmatch (Seq (Class (is_char ".")) (Plus (Class Str.is_word))) ?k0
                (MState r i caps0))
        with (rmatch (Class (is_char ".")) (rmatch (Plus (Class Str.is_word)) k0)
                (MState r i caps0)).
      now rewrite (class_stops _ _ _ _ _ Hr1). }
    rewrite Hn. cbn [rest idx caps]. now rewrite Nat.eqb_refl.
  - rewrite (class_tokens_run _ res caps0 r Hr1 Hr2 (c :: cs) i _ Hw);
      [reflexivity|rewrite length_app; lia|].
    cbn [rest idx caps].
    assert (Hl : (0 < length (tokens (c :: cs)))%nat) by (cbn; lia).
    assert (Hi : (length (tokens (c :: cs)) + i =? i)%nat = false)
      by (apply Nat.eqb_neq; lia).
    rewrite Hi. rewrite Nat.add_sub, take_app_length. exact Hk.
Qed.

Lemma id_segment (k : cont) (res : mstate) (I : option (list ascii))
    (r : list ascii) (i : nat) (caps0 : list (nat * string)) :
  (forall w, I = Some w -> w <> [] /\ forallb Str.is_word w = true) ->
  stops Str.is_word r -> stops (is_char "#") r ->
  k (MState r (length (id_units I) + i)
       (match I with
        | Some w => [(2%nat, Str.pack w)]
        | None => []
        end ++ caps0)) = Some res ->
  rmatch re_id k (MState (id_units I ++ r) i caps0) = Some res.
Proof.
  intros HI Hr1 Hr2 Hk. unfold re_id. rewrite rmatch_Opt, rmatch_Seq.
  destruct I as [w|]; cbn [id_units app length] in *.
  - destruct (HI w eq_refl) as [Hw Hww].
    rewrite rmatch_class_cons. change (is_char "#" "#"%char) with true. cbn iota.
    rewrite rmatch_Group.
    rewrite (plus_class_until Str.is_word _ w r caps0 res (S i) Hw Hww Hr1);
      [reflexivity|].
    cbn [rest idx caps].
    assert (Hi : (length w + S i =? i)%nat = false) by (apply Nat.eqb_neq; lia).
    rewrite Hi, Nat.add_sub, take_app_length.
    now replace (length w + S i)%nat with (S (length w + i))%nat by lia.
  - rewrite (class_stops _ _ _ _ _ Hr2). exact Hk.
Qed.

Lemma plus_class_stops (p : ascii -> bool) (k : cont) (r : list ascii) (i : nat)
    (cs : list (nat * string)) :
  stops p r -> rmatch (Plus (Class p)) k (MState r i cs) = None.
Proof. intros H. now apply class_stops. Qed.

Lemma tag_segment (k : cont) (res : mstate) (T r : list ascii)
    (caps0 : list (nat * string)) :
  forallb Str.is_letter T = true -> stops Str.is_letter r ->
  k (MState r (length T)
       (match T with
        | [] => []
        | _ :: _ => [(1%nat, Str.pack T)]
        end ++ caps0)) = Some res ->
  rmatch re_tag k (MState (T ++ r) 0 caps0) = Some res.
Proof.
  intros HT Hr Hk. unfold re_tag. rewrite rmatch_Seq.
  change (rmatch Bol (rmatch (Opt (Group 1 (Plus (Class Str.is_letter)))) k)
            (MState (T ++ r) 0 caps0))
    with (rmatch (Opt (Group 1 (Plus (Class Str.is_letter)))) k
            (MState (T ++ r) 0 caps0)).
  rewrite rmatch_Opt, rmatch_Group.
  destruct T as [|c T].
  - cbn [app]. rewrite (plus_class_stops _ _ _ _ _ Hr). exact Hk.
  - rewrite (plus_class_until Str.is_letter _ (c :: T) r caps0 res 0
               ltac:(discriminate) HT Hr); [reflexivity|].
    cbn [rest idx caps].
    rewrite Nat.add_0_r, Nat.sub_0_r, take_app_length.
    exact Hk.
Qed.

Lemma attrs_absent (k : cont) (r : list ascii) (i : nat)
    (caps0 : list (nat * string)) :
  stops is_open_bracket r ->
  rmatch re_attrs k (MState r i caps0) = k (MState r i caps0).
Proof.
  intros Hr. unfold re_attrs. rewrite rmatch_Opt, rmatch_Group, rmatch_Seq.
  now rewrite (class_stops _ _ _ _ _ Hr).
Qed.

Lemma leading_spaces (l : list ascii) :
  exists sp body, l = sp ++ body /\ forallb (is_char " ") sp = true /\
                  stops (is_char " ") body.
Proof.
  induction l as [|c l (sp & body & -> & Hs & Hb)].
  - now exists [], [].
  - destruct (is_char " " c) eqn:E.
    + exists (c :: sp), body. cbn. now rewrite E.
    + now exists [], (c :: sp ++ body).
Qed.

(** The content segment: absent at the end of the input; otherwise the
    spaces are read and group 5 is what follows them. *)
Lemma content_segment (sp body : list ascii) (i : nat) (caps0 : list (nat * string)) :
  forallb (is_char " ") sp = true -> stops (is_char " ") body ->
  forallb any_char body = true ->
  rmatch re_content Some (MState (" "%char :: sp ++ body) i caps0) =
    Some (MState [] (S (length sp + length body) + i) ((5%nat, Str.pack body) :: caps0)).
Proof.
  intros Hs Hb Ha. unfold re_content.
  rewrite rmatch_Seq, rmatch_Opt, rmatch_Seq.
  rewrite (plus_class_until (is_char " ") _ (" "%char :: sp) body caps0
             (MState [] (S (length sp + length body) + i) ((5%nat, Str.pack body) :: caps0))
             i ltac:(discriminate)); [reflexivity| |exact Hb|].
  { cbn [forallb]. now rewrite Hs. }
  rewrite rmatch_Group, rmatch_Repeat. cbn [rest idx caps].
  rewrite <- (app_nil_r body) at 2.
  rewrite (repeat_class_until any_char _ body [] caps0
             (MState [] (S (length sp + length body) + i) ((5%nat, Str.pack body) :: caps0))
             _ _ Ha I (le_n _)); [reflexivity|].
  cbn [rest idx caps length].
  assert (Hi : (length body + (S (length sp) + i) =? i)%nat = false)
    by (apply Nat.eqb_neq; lia).
  rewrite Hi, Nat.add_sub, firstn_all. cbn [rmatch rest].
  do 2 f_equal. lia.
Qed.

Lemma content_absent (n : nat) (cs : list (nat * string)) :
  rmatch re_content Some (MState [] n cs) = Some (MState [] n cs).
Proof. reflexivity. Qed.

Lemma content_stops (p : ascii -> bool) (t : option (list ascii)) :
  p " "%char = false -> stops p (content_units t).
Proof. destruct t; [easy|intros _; exact I]. Qed.

Lemma lazy_until (k : cont) (cl : ascii) (r : list ascii)
    (caps0 : list (nat * string)) (res : mstate) :
  forall (body : list ascii) (j fuel : nat),
  forallb any_char body = true ->
  forallb (fun c => negb (is_close_bracket c)) body = true ->
  (length body <= fuel)%nat ->
  rmatch (Class is_close_bracket) k (MState (cl :: r) (length body + j) caps0) = Some res ->
  repeat_loop (rmatch (Class any_char)) false (rmatch (Class is_close_bracket) k) fuel
    (MState (body ++ cl :: r) j caps0) = Some res.
Proof.
  induction body as [|c body IH]; intros j fuel Ha Hc Hf Hk.
  - cbn [app length Nat.add] in *. destruct fuel; cbn [repeat_loop]; [exact Hk|].
    now rewrite Hk.
  - cbn [forallb] in Ha, Hc. apply andb_prop in Ha as [Hac Ha].
    apply andb_prop in Hc as [Hcc Hc]. apply negb_true_iff in Hcc.
    destruct fuel as [|fuel]; [cbn in Hf; lia|].
    cbn [app repeat_loop]. rewrite !rmatch_class_cons, Hcc, Hac. cbn [rest idx caps orelse].
    assert (Hi : (S j =? j)%nat = false) by (apply Nat.eqb_neq; lia).
    rewrite Hi. apply IH; [exact Ha|exact Hc|cbn in Hf; lia|].
    cbn [length] in Hk.
    now replace (length body + S j)%nat with (S (length body) + j)%nat by lia.
Qed.

(** The attribute block: group 4 is the block, from its opening bracket to
    the first closing bracket. *)
Lemma attrs_segment (k : cont) (res : mstate) (o cl : ascii) (body r : list ascii)
    (i : nat) (caps0 : list (nat * string)) :
  is_open_bracket o = true -> is_close_bracket cl = true ->
  forallb any_char body = true ->
  forallb (fun c => negb (is_close_bracket c)) body = true ->
  k (MState r (S (S (length body)) + i)
       ((4%nat, Str.pack (o :: body ++ [cl])) :: caps0)) = Some res ->
  rmatch re_attrs k (MState (o :: body ++ cl :: r) i caps0) = Some res.
Proof.
  intros Ho Hcl Ha Hc Hk. unfold re_attrs.
  rewrite rmatch_Opt, rmatch_Group, rmatch_Seq, rmatch_class_cons, Ho.
  rewrite rmatch_Seq, rmatch_Repeat. cbn [rest idx caps].
  rewrite (lazy_until _ cl r caps0 res body (S i) _ Ha Hc);
    [reflexivity|rewrite length_app; lia|].
  rewrite rmatch_class_cons, Hcl. cbn [rest idx caps].
  assert (Hi : (S (length body + S i) =? i)%nat = false) by (apply Nat.eqb_neq; lia).
  rewrite Hi.
  replace (S (length body + S i) - i)%nat with (length (o :: body ++ [cl])).
  2:{ cbn [length]. rewrite length_app. cbn [length]. lia. }
  replace (o :: body ++ cl :: r) with ((o :: body ++ [cl]) ++ r).
  2:{ cbn [app]. now rewrite <- app_assoc. }
  rewrite take_app_length.
  now replace (S (length body + S i)) with (S (S (length body)) + i)%nat by lia.
Qed.

Lemma plain_facts (c : ascii) :
  plain c = true ->
  any_char c = true /\ Str.is_space c = false /\ is_char "," c = false /\
  is_char "=" c = false /\ is_char ":" c = false /\ is_close_bracket c = false.
Proof.
  unfold plain. intros H.
  repeat (apply andb_prop in H as [H ?]).
  repeat match goal with Hn : negb _ = true |- _ => apply negb_true_iff in Hn end.
  repeat split; assumption.
Qed.

Lemma open_bracket_facts (c : ascii) :
  is_open_bracket c = true ->
  Str.is_space c = false /\ Str.is_letter c = false /\ Str.is_word c = false /\
  is_char "#" c = false /\ is_char "." c = false.
Proof.
  destruct c as [b0 b1 b2 b3 b4 b5 b6 b7].
  destruct b0, b1, b2, b3, b4, b5, b6, b7; vm_compute; intros H;
    try discriminate H; repeat split.
Qed.

Lemma close_bracket_not_space (c : ascii) :
  is_close_bracket c = true -> Str.is_space c = false.
Proof.
  destruct c as [b0 b1 b2 b3 b4 b5 b6 b7].
  destruct b0, b1, b2, b3, b4, b5, b6, b7; vm_compute; intros H;
    try discriminate H; reflexivity.
Qed.

(** *** Splitting at the commas *)

Lemma comma_fails (c : ascii) (t : list ascii) (i : nat) :
  Str.is_space c = false -> is_char "," c = false ->
  match_here re_comma (MState (c :: t) i []) = None.
Proof.
  intros Hs Hc. unfold match_here, re_comma.
  rewrite rmatch_Seq, rmatch_Repeat. cbn [rest length repeat_loop].
  rewrite rmatch_class_cons, Hs. cbn [orelse].
  now rewrite rmatch_Seq, rmatch_class_cons, Hc.
Qed.

Lemma comma_matches (t : list ascii) (i : nat) :
  stops Str.is_space t ->
  match_here re_comma (MState (","%char :: t) i []) = Some (MState t (S i) []).
Proof.
  intros Ht. unfold match_here, re_comma.
  rewrite rmatch_Seq, rmatch_Repeat. cbn [rest length repeat_loop].
  rewrite rmatch_class_cons. change (Str.is_space ","%char) with false.
  cbn [orelse]. rewrite rmatch_Seq, rmatch_class_cons.
  change (is_char "," ","%char) with true. cbn iota.
  rewrite rmatch_Repeat. cbn [rest].
  destruct t as [|d t]; [reflexivity|]. cbn [length repeat_loop].
  now rewrite (class_stops _ _ _ _ _ Ht).
Qed.

Lemma commas_stop (u : list ascii) (us : list (list ascii)) :
  no_comma u = true ->
  stops Str.is_space (u ++ concat (map (fun x => ","%char :: x) us)).
Proof.
  destruct u as [|d u]; [destruct us; [easy|reflexivity]|].
  cbn [no_comma forallb app stops]. intros H.
  apply andb_prop in H as [H _]. apply andb_prop in H as [H _].
  now apply negb_true_iff.
Qed.

Lemma split_commas (us : list (list ascii)) :
  forall (u acc : list ascii) (i : nat),
  no_comma u = true -> forallb no_comma us = true ->
  split_loop re_comma (u ++ concat (map (fun x => ","%char :: x) us)) i acc 0 =
    Str.pack (rev acc ++ u) :: map Str.pack us.
Proof.
  induction us as [|u1 us IH]; intros u; induction u as [|d u IHu];
    intros acc i Hu Hus.
  - cbn. now rewrite app_nil_r.
  - cbn [no_comma forallb] in Hu. apply andb_prop in Hu as [Hd Hu].
    apply andb_prop in Hd as [Hd1 Hd2]. apply negb_true_iff in Hd1, Hd2.
    cbn [app split_loop]. rewrite (comma_fails d _ i Hd1 Hd2).
    rewrite (IHu (d :: acc) (S i) Hu Hus). cbn [rev]. now rewrite <- app_assoc.
  - cbn [forallb] in Hus. apply andb_prop in Hus as [Hu1 Hus].
    cbn [map concat app split_loop].
    rewrite (comma_matches _ i (commas_stop u1 us Hu1)). cbn [idx].
    replace (S i - i)%nat with 1%nat by lia.
    rewrite app_nil_r.
    destruct acc; now rewrite (IH u1 [] (S i) Hu1 Hus).
  - cbn [no_comma forallb] in Hu. apply andb_prop in Hu as [Hd Hu].
    apply andb_prop in Hd as [Hd1 Hd2]. apply negb_true_iff in Hd1, Hd2.
    cbn [app split_loop]. rewrite (comma_fails d _ i Hd1 Hd2).
    rewrite (IHu (d :: acc) (S i) Hu Hus). cbn [rev]. now rewrite <- app_assoc.
Qed.

(** *** Splitting at the separator *)

Lemma separator_fails (c : ascii) (t : list ascii) (i : nat) :
  plain c = true -> match_here re_separator (MState (c :: t) i []) = None.
Proof.
  intros Hp. destruct (plain_facts c Hp) as (_ & _ & _ & He & Hc & _).
  unfold match_here, re_separator. now rewrite rmatch_class_cons, Hc, He.
Qed.

Lemma split_plain (v : list ascii) :
  forall (acc : list ascii) (i : nat),
  forallb plain v = true ->
  split_loop re_separator v i acc 0 = [Str.pack (rev acc ++ v)].
Proof.
  induction v as [|d v IH]; intros acc i Hv.
  - cbn. now rewrite app_nil_r.
  - cbn [forallb] in Hv. apply andb_prop in Hv as [Hd Hv].
    cbn [split_loop]. rewrite (separator_fails d v i Hd).
    rewrite (IH (d :: acc) (S i) Hv). cbn [rev]. now rewrite <- app_assoc.
Qed.

Lemma split_name_value (k v : list ascii) :
  forall (acc : list ascii) (i : nat),
  forallb plain k = true -> forallb plain v = true ->
  split_loop re_separator (k ++ "="%char :: v) i acc 0 =
    [Str.pack (rev acc ++ k); Str.pack v].
Proof.
  induction k as [|d k IH]; intros acc i Hk Hv.
  - cbn [app split_loop].
    change (match_here re_separator (MState ("="%char :: v) i []))
      with (Some (MState v (S i) [])).
    cbn [idx]. replace (S i - i)%nat with 1%nat by lia.
    rewrite app_nil_r. destruct acc; now rewrite (split_plain v [] (S i) Hv).
  - cbn [forallb] in Hk. apply andb_prop in Hk as [Hd Hk].
    cbn [app split_loop]. rewrite (separator_fails d _ i Hd).
    rewrite (IH (d :: acc) (S i) Hk Hv). cbn [rev]. now rewrite <- app_assoc.
Qed.

(** *** One attribute *)

Lemma trim_fixed (l : list ascii) :
  no_lead l -> no_lead (rev l) -> Str.trim (Str.pack l) = Str.pack l.
Proof.
  intros H1 H2. unfold Str.trim. rewrite chars_pack.
  rewrite (drop_space_fixed l H1), (drop_space_fixed (rev l) H2).
  now rewrite rev_involutive.
Qed.

Lemma plain_no_lead (l : list ascii) : forallb plain l = true -> no_lead l.
Proof.
  destruct l as [|c l]; [easy|]. cbn. intros H. apply andb_prop in H as [H _].
  now destruct (plain_facts c H) as (_ & Hs & _).
Qed.

Lemma trim_plain (l : list ascii) :
  forallb plain l = true -> Str.trim (Str.pack l) = Str.pack l.
Proof.
  intros H. apply trim_fixed; apply plain_no_lead; [exact H|].
  apply forallb_forall. intros x Hx. apply in_rev in Hx.
  rewrite forallb_forall in H. now apply H.
Qed.

Lemma pack_nonempty (l : list ascii) : l <> [] -> String.eqb (Str.pack l) "" = false.
Proof. destruct l; [congruence|reflexivity]. Qed.

Lemma includes_plain (c : ascii) (l : list ascii) :
  (forall d, plain d = true -> is_char c d = false) ->
  forallb plain l = true -> Str.includes c (Str.pack l) = false.
Proof.
  intros Hc Hl. unfold Str.includes. rewrite chars_pack.
  induction l as [|d l IH]; [reflexivity|].
  cbn [forallb] in Hl. apply andb_prop in Hl as [Hd Hl].
  cbn [existsb]. change (Str.code d =? Str.code c)%N with (is_char c d).
  now rewrite (Hc d Hd), (IH Hl).
Qed.

(** A bare name is a flag: its value is true. *)
Lemma add_pair_flag (attrs : list (string * value)) (k : list ascii) :
  k <> [] -> forallb plain k = true ->
  add_pair attrs (Str.pack k) = Js.assign (Str.pack k) (VBool true) attrs.
Proof.
  intros Hk Hp. unfold add_pair. rewrite (pack_nonempty k Hk).
  rewrite (includes_plain "=" k), (includes_plain ":" k); try exact Hp.
  - cbn [orb]. now rewrite (trim_plain k Hp).
  - intros d Hd. now destruct (plain_facts d Hd) as (_ & _ & _ & _ & H & _).
  - intros d Hd. now destruct (plain_facts d Hd) as (_ & _ & _ & H & _).
Qed.

(** A name, an equals sign and a value. *)
Lemma add_pair_value (attrs : list (string * value)) (k v : list ascii) :
  k <> [] -> forallb plain k = true -> forallb plain v = true ->
  add_pair attrs (Str.pack (k ++ "="%char :: v)) =
    Js.assign (Str.pack k) (VStr (Str.pack v)) attrs.
Proof.
  intros Hk Hpk Hpv. unfold add_pair.
  rewrite pack_nonempty by (destruct k; discriminate).
  assert (Hi : Str.includes "=" (Str.pack (k ++ "="%char :: v)) = true).
  { unfold Str.includes. rewrite chars_pack, existsb_app. cbn [existsb].
    rewrite N.eqb_refl. now rewrite orb_true_r. }
  rewrite Hi. cbn [orb].
  assert (Hs : Re.split re_separator (Str.pack (k ++ "="%char :: v)) =
               [Str.pack k; Str.pack v]).
  { unfold Re.split. rewrite chars_pack.
    destruct k as [|d k]; [congruence|].
    change ((d :: k) ++ "="%char :: v) with (d :: (k ++ "="%char :: v)).
    cbv iota. change (d :: (k ++ "="%char :: v)) with ((d :: k) ++ "="%char :: v).
    now rewrite (split_name_value (d :: k) v [] 0 Hpk Hpv). }
  rewrite Hs. cbn [firstn lookup list_lookup default from_option].
  unfold id. now rewrite (trim_plain k Hpk), (trim_plain v Hpv).
Qed.

(** *** The block *)

Lemma length_pack (l : list ascii) : String.length (Str.pack l) = length l.
Proof.
  unfold Str.pack. induction l as [|c l IH]; cbn; [reflexivity|now rewrite IH].
Qed.

Lemma substring_0_pack (l r : list ascii) :
  String.substring 0 (length l) (Str.pack (l ++ r)) = Str.pack l.
Proof.
  unfold Str.pack. induction l as [|c l IH]; cbn.
  - now destruct (string_of_list_ascii r).
  - f_equal. exact IH.
Qed.

Lemma substring_1_last_block (o c : ascii) (body : list ascii) :
  Str.substring_1_last (Str.pack (o :: body ++ [c])) = Str.pack body.
Proof.
  unfold Str.substring_1_last. rewrite length_pack. cbn [length].
  rewrite length_app. cbn [length].
  replace (Nat.min 1 (S (length body + 1))) with 1%nat by lia.
  replace (Nat.min (S (length body + 1) - 1) (S (length body + 1)))
    with (S (length body)) by lia.
  replace (Nat.min 1 (S (length body))) with 1%nat by lia.
  replace (Nat.max 1 (S (length body)) - 1)%nat with (length body) by lia.
  change (Str.pack (o :: body ++ [c])) with (String o (Str.pack (body ++ [c]))).
  cbn [String.substring]. apply substring_0_pack.
Qed.

Lemma pairs_units_cons (kv : list ascii * option (list ascii))
    (ps : list (list ascii * option (list ascii))) :
  pairs_units (kv :: ps) =
    pair_units kv ++ concat (map (fun x => ","%char :: x) (map pair_units ps)).
Proof.
  revert kv. induction ps as [|kv' ps IH]; intros kv.
  - cbn. now rewrite app_nil_r.
  - change (pairs_units (kv :: kv' :: ps))
      with (pair_units kv ++ ","%char :: pairs_units (kv' :: ps)).
    rewrite (IH kv'). reflexivity.
Qed.

Lemma pair_units_inner (p : ascii -> bool) (kv : list ascii * option (list ascii)) :
  (forall c, plain c = true -> p c = true) -> p "="%char = true ->
  plain_pair kv -> forallb p (pair_units kv) = true.
Proof.
  intros Hp He (_ & Hk & Hv). unfold pair_units.
  assert (Hall : forall l, forallb plain l = true -> forallb p l = true).
  { intros l Hl. apply forallb_forall. intros x Hx.
    rewrite forallb_forall in Hl. apply Hp. now apply Hl. }
  destruct (snd kv) as [v|]; [|now apply Hall].
  rewrite forallb_app. cbn [forallb]. rewrite He, (Hall _ Hk), (Hall v (Hv v eq_refl)).
  reflexivity.
Qed.

Lemma pairs_units_inner (p : ascii -> bool)
    (ps : list (list ascii * option (list ascii))) :
  (forall c, plain c = true -> p c = true) -> p "="%char = true -> p ","%char = true ->
  Forall plain_pair ps -> forallb p (pairs_units ps) = true.
Proof.
  intros Hp He Hc Hps. induction Hps as [|kv ps Hkv Hps IH]; [reflexivity|].
  destruct ps as [|kv' ps]; [now apply pair_units_inner|].
  change (pairs_units (kv :: kv' :: ps))
    with (pair_units kv ++ ","%char :: pairs_units (kv' :: ps)).
  rewrite forallb_app. cbn [forallb].
  now rewrite (pair_units_inner p kv Hp He Hkv), Hc, IH.
Qed.

Lemma add_pair_units (attrs : list (string * value))
    (kv : list ascii * option (list ascii)) :
  plain_pair kv ->
  add_pair attrs (Str.pack (pair_units kv)) =
    Js.assign (Str.pack (fst kv))
      (match snd kv with
       | Some v => VStr (Str.pack v)
       | None => VBool true
       end) attrs.
Proof.
  intros (Hk & Hpk & Hv). unfold pair_units. destruct (snd kv) as [v|].
  - apply add_pair_value; [exact Hk|exact Hpk|now apply Hv].
  - now apply add_pair_flag.
Qed.

(** What [parse_attrs] makes of a block of plain attributes: each name is
    given its value, or true, in the order of the block. *)
Lemma parse_block (o c : ascii) (ps : list (list ascii * option (list ascii))) :
  is_open_bracket o = true -> is_close_bracket c = true ->
  Forall plain_pair ps ->
  parse_attrs (trimmed_or_null (Some (Str.pack (o :: pairs_units ps ++ [c])))) =
    fold_left (fun m kv => Js.assign (Str.pack (fst kv))
                             (match snd kv with
                              | Some v => VStr (Str.pack v)
                              | None => VBool true
                              end) m) ps [].
Proof.
  intros Ho Hc Hps. cbn [trimmed_or_null].
  rewrite trim_fixed.
  2:{ cbn. now destruct (open_bracket_facts o Ho) as (H & _). }
  2:{ change (o :: pairs_units ps ++ [c]) with ((o :: pairs_units ps) ++ [c]).
      rewrite rev_app_distr. cbn. now apply close_bracket_not_space. }
  unfold Js.or_else. change (Js.truthy (VStr (Str.pack (o :: pairs_units ps ++ [c]))))
    with true. cbn iota. unfold parse_attrs.
  change (Js.truthy (VStr (Str.pack (o :: pairs_units ps ++ [c])))) with true.
  cbn iota zeta. rewrite substring_1_last_block.
  assert (Hfold : forall (l : list (list ascii * option (list ascii))) acc,
            Forall plain_pair l ->
            fold_left add_pair (map Str.pack (map pair_units l)) acc =
              fold_left (fun m kv => Js.assign (Str.pack (fst kv))
                                       (match snd kv with
                                        | Some v => VStr (Str.pack v)
                                        | None => VBool true
                                        end) m) l acc).
  { intros l acc Hl. revert acc. induction Hl as [|kv l Hkv Hl IH]; intros acc;
      [reflexivity|].
    cbn [map fold_left]. rewrite (add_pair_units acc kv Hkv). apply IH. }
  destruct ps as [|kv ps]; [reflexivity|].
  apply Forall_cons in Hps as Hps'. destruct Hps' as [Hkv Hps'].
  rewrite <- (Hfold (kv :: ps) [] Hps). f_equal.
  unfold Re.split. rewrite chars_pack, pairs_units_cons.
  assert (Hne : pair_units kv <> []).
  { destruct Hkv as (Hk & _). unfold pair_units. destruct (snd kv), (fst kv);
      try congruence; discriminate. }
  assert (Hnc : forall x, plain_pair x -> no_comma (pair_units x) = true).
  { intros x Hx. apply (pair_units_inner _ x); [|reflexivity|exact Hx].
    intros d Hd. destruct (plain_facts d Hd) as (_ & H1 & H2 & _). now rewrite H1, H2. }
  destruct (pair_units kv) as [|d u] eqn:Eu; [congruence|].
  cbn [app]. cbv iota.
  change (d :: u ++ concat (map (fun x => ","%char :: x) (map pair_units ps)))
    with ((d :: u) ++ concat (map (fun x => ","%char :: x) (map pair_units ps))).
  rewrite split_commas.
  - cbn [rev app map]. now rewrite Eu.
  - rewrite <- Eu. now apply Hnc.
  - apply forallb_forall. intros x Hx. apply in_map_iff in Hx as (y & <- & Hy).
    apply Hnc. rewrite Forall_forall in Hps'. apply Hps'. now apply list_elem_of_In.
Qed.

(** *** The whole selector *)

Lemma block_stops (p : ascii -> bool)
    (b : option (ascii * list (list ascii * option (list ascii)) * ascii))
    (t : option (list ascii)) :
  (forall o, is_open_bracket o = true -> p o = false) -> p " "%char = false ->
  good_block b -> stops p (block_units b ++ content_units t).
Proof.
  intros Ho Hs Hb. destruct b as [[[o ps] c]|].
  - destruct Hb as (Hb & _). cbn. now apply Ho.
  - now apply content_stops.
Qed.

Lemma selector_rest_stops (I : option (list ascii)) (cs : list (list ascii))
    (b : option (ascii * list (list ascii * option (list ascii)) * ascii))
    (t : option (list ascii)) :
  good_block b ->
  stops Str.is_letter (id_units I ++ tokens cs ++ block_units b ++ content_units t).
Proof.
  intros Hb. destruct I as [w|]; [reflexivity|]. destruct cs; [|reflexivity].
  apply block_stops; [|reflexivity|exact Hb].
  intros o Ho. now destruct (open_bracket_facts o Ho) as (_ & H & _).
Qed.

Lemma tokens_no_hash (cs : list (list ascii))
    (b : option (ascii * list (list ascii * option (list ascii)) * ascii))
    (t : option (list ascii)) :
  good_block b ->
  stops (is_char "#") (tokens cs ++ block_units b ++ content_units t).
Proof.
  intros Hb. destruct cs; [|reflexivity].
  apply block_stops; [|reflexivity|exact Hb].
  intros o Ho. now destruct (open_bracket_facts o Ho) as (_ & _ & _ & H & _).
Qed.

(** The pattern matches a selector whole, with the tag, the id, the class
    tokens, the attribute block and the text after the spaces as groups 1 to
    5. *)
Lemma selector_match (T : list ascii) (I : option (list ascii))
    (cs : list (list ascii))
    (b : option (ascii * list (list ascii * option (list ascii)) * ascii))
    (t : option (list ascii)) :
  forallb Str.is_letter T = true ->
  (forall w, I = Some w -> w <> [] /\ forallb Str.is_word w = true) ->
  word_names cs -> good_block b ->
  (forall l, t = Some l -> forallb any_char l = true) ->
  exists c5 : list (nat * string),
    match_here dom_regex (MState (selector_units T I cs b t) 0 []) =
      Some (MState [] (length (selector_units T I cs b t))
              (c5
               ++ match b with
                  | Some (o, ps, c) => [(4%nat, Str.pack (o :: pairs_units ps ++ [c]))]
                  | None => []
                  end
               ++ match cs with [] => [] | _ :: _ => [(3%nat, Str.pack (tokens cs))] end
               ++ match I with Some w => [(2%nat, Str.pack w)] | None => [] end
               ++ match T with [] => [] | _ :: _ => [(1%nat, Str.pack T)] end)) /\
    match t with
    | None => c5 = []
    | Some l => exists sp body, l = sp ++ body /\ forallb (is_char " ") sp = true /\
                                c5 = [(5%nat, Str.pack body)]
    end.
Proof.
  intros HT HI Hcs Hb Ht.
  assert (Hcontent : exists c5 : list (nat * string),
            (forall n caps0,
               rmatch re_content Some (MState (content_units t) n caps0) =
                 Some (MState [] (length (content_units t) + n) (c5 ++ caps0))) /\
            match t with
            | None => c5 = []
            | Some l => exists sp body, l = sp ++ body /\
                          forallb (is_char " ") sp = true /\
                          c5 = [(5%nat, Str.pack body)]
            end).
  { destruct t as [l|].
    - destruct (leading_spaces l) as (sp & body & -> & Hs & Hbd).
      exists [(5%nat, Str.pack body)]. split; [|now exists sp, body].
      intros n caps0. cbn [content_units].
      rewrite content_segment; [|exact Hs|exact Hbd|].
      + cbn [length app]. rewrite length_app. reflexivity.
      + specialize (Ht _ eq_refl). rewrite forallb_app in Ht.
        now apply andb_prop in Ht as [_ Ht].
    - exists []. split; [|reflexivity]. intros n caps0. reflexivity. }
  destruct Hcontent as (c5 & Hcontent & Hc5). exists c5. split; [|exact Hc5].
  unfold match_here, dom_regex, selector_units.
  rewrite !rmatch_Seq.
  apply tag_segment; [exact HT|now apply selector_rest_stops|].
  apply id_segment; [exact HI| |now apply tokens_no_hash|].
  { apply tokens_stop. apply block_stops; [|reflexivity|exact Hb].
    intros o Ho. now destruct (open_bracket_facts o Ho) as (_ & _ & H & _). }
  apply classes_segment; [exact Hcs| | |].
  { apply block_stops; [|reflexivity|exact Hb].
    intros o Ho. now destruct (open_bracket_facts o Ho) as (_ & _ & _ & _ & H). }
  { apply block_stops; [|reflexivity|exact Hb].
    intros o Ho. now destruct (open_bracket_facts o Ho) as (_ & _ & H & _). }
  destruct b as [[[o ps] c]|].
  - destruct Hb as (Ho & Hc & Hps). cbn [block_units].
    change ((o :: pairs_units ps ++ [c]) ++ content_units t)
      with (o :: (pairs_units ps ++ [c]) ++ content_units t).
    rewrite <- app_assoc. cbn [app].
    apply attrs_segment; [exact Ho|exact Hc| | |].
    { apply pairs_units_inner; [|reflexivity|reflexivity|exact Hps].
      intros d Hd. now destruct (plain_facts d Hd) as (H & _). }
    { apply pairs_units_inner; [|reflexivity|reflexivity|exact Hps].
      intros d Hd. destruct (plain_facts d Hd) as (_ & _ & _ & _ & _ & H).
      now rewrite H. }
    rewrite Hcontent. rewrite !app_nil_r, !length_app. cbn [length app].
    rewrite !length_app. cbn [length]. do 2 f_equal. lia.
  - cbn [block_units app].
    rewrite attrs_absent by (now apply content_stops).
    rewrite Hcontent. rewrite !app_nil_r, !length_app. cbn [length app].
    do 2 f_equal. lia.
Qed.

Lemma is_word_not_space (c : ascii) : Str.is_word c = true -> Str.is_space c = false.
Proof.
  destruct c as [b0 b1 b2 b3 b4 b5 b6 b7].
  destruct b0, b1, b2, b3, b4, b5, b6, b7; vm_compute; intros H;
    try reflexivity; discriminate H.
Qed.

Lemma is_word_not_dot (c : ascii) :
  Str.is_word c = true -> (Str.code c =? Str.code ".")%N = false.
Proof.
  destruct c as [b0 b1 b2 b3 b4 b5 b6 b7].
  destruct b0, b1, b2, b3, b4, b5, b6, b7; vm_compute; intros H;
    try reflexivity; discriminate H.
Qed.

Lemma space_is_space (c : ascii) : is_char " " c = true -> Str.is_space c = true.
Proof.
  destruct c as [b0 b1 b2 b3 b4 b5 b6 b7].
  destruct b0, b1, b2, b3, b4, b5, b6, b7; vm_compute; intros H;
    try reflexivity; discriminate H.
Qed.

Lemma word_no_lead (l : list ascii) : forallb Str.is_word l = true -> no_lead l.
Proof.
  destruct l as [|c l]; [easy|]. cbn. intros H. apply andb_prop in H as [H _].
  now apply is_word_not_space.
Qed.

(** A name of the class [[a-zA-Z0-9_-]] has nothing to trim. *)
Lemma trim_word (l : list ascii) :
  forallb Str.is_word l = true -> Str.trim (Str.pack l) = Str.pack l.
Proof.
  intros H. unfold Str.trim. rewrite chars_pack.
  rewrite (drop_space_fixed l (word_no_lead l H)).
  rewrite (drop_space_fixed (rev l)); [now rewrite rev_involutive|].
  apply word_no_lead. apply forallb_forall. intros x Hx.
  apply in_rev in Hx. rewrite forallb_forall in H. now apply H.
Qed.

(** The spaces before a text do not change what [trim] gives. *)
Lemma trim_after_spaces (sp body : list ascii) :
  forallb (is_char " ") sp = true ->
  Str.trim (Str.pack body) = Str.trim (Str.pack (sp ++ body)).
Proof.
  intros Hs. unfold Str.trim. rewrite !chars_pack. do 4 f_equal.
  induction sp as [|c sp IH]; [reflexivity|].
  cbn [forallb] in Hs. apply andb_prop in Hs as [Hc Hs].
  cbn [app Str.drop_space]. rewrite (space_is_space c Hc). now apply IH.
Qed.

Lemma split_on_tokens (cs : list (list ascii)) :
  forall (c acc : list ascii),
  forallb Str.is_word c = true ->
  Forall (fun c => forallb Str.is_word c = true) cs ->
  Str.split_on "." acc (c ++ tokens cs) = Str.pack (rev acc ++ c) :: map Str.pack cs.
Proof.
  induction cs as [|c1 cs IH]; intros c; induction c as [|d c IHc];
    intros acc Hc Hcs.
  - cbn. now rewrite app_nil_r.
  - cbn [forallb] in Hc. apply andb_prop in Hc as [Hd Hc].
    cbn [app Str.split_on]. rewrite (is_word_not_dot d Hd).
    rewrite (IHc (d :: acc) Hc Hcs). cbn [rev]. now rewrite <- app_assoc.
  - apply Forall_cons in Hcs as [Hc1 Hcs].
    change ([] ++ tokens (c1 :: cs)) with ("."%char :: c1 ++ tokens cs).
    cbn [Str.split_on]. rewrite N.eqb_refl, app_nil_r.
    now rewrite (IH c1 [] Hc1 Hcs).
  - cbn [forallb] in Hc. apply andb_prop in Hc as [Hd Hc].
    cbn [app Str.split_on]. rewrite (is_word_not_dot d Hd).
    rewrite (IHc (d :: acc) Hc Hcs). cbn [rev]. now rewrite <- app_assoc.
Qed.

Lemma chars_nonempty (s : string) : s <> "" -> Str.chars s <> [].
Proof. destruct s; [congruence|discriminate]. Qed.

Lemma exec_from_here (r : regex) (n : nat) (s m : mstate) :
  match_here r s = Some m -> exec_from r n s = Some m.
Proof. intros H. destruct n; cbn [exec_from]; now rewrite H. Qed.

Lemma block_attrs_units (ps : list (string * option string)) :
  fold_left (fun m kv => Js.assign (Str.pack (fst kv))
                           (match snd kv with
                            | Some v => VStr (Str.pack v)
                            | None => VBool true
                            end) m)
    (map (fun kv => (Str.chars (fst kv), Str.chars <$> snd kv)) ps) [] =
  block_attrs ps.
Proof.
  unfold block_attrs. generalize (@nil (string * value)).
  induction ps as [|[k v] ps IH]; intros acc; [reflexivity|].
  cbn [map fold_left fst snd]. rewrite IH. do 2 f_equal.
  - apply pack_chars.
  - destruct v as [v|]; cbn; [now rewrite pack_chars|reflexivity].
Qed.

(** What the parser returns for a selector. *)
Lemma selector_fragment (tag : string) (id : option string) (classes : list string)
    (block : option (ascii * list (string * option string) * ascii))
    (text : option string) :
  forallb Str.is_letter (Str.chars tag) = true ->
  (forall i, id = Some i -> i <> "" /\ forallb Str.is_word (Str.chars i) = true) ->
  Forall (fun c => c <> "" /\ forallb Str.is_word (Str.chars c) = true) classes ->
  (forall o ps c, block = Some (o, ps, c) ->
     is_open_bracket o = true /\ is_close_bracket c = true /\ Forall plain_attr ps) ->
  (forall t, text = Some t -> forallb any_char (Str.chars t) = true) ->
  parseDomString (selector tag id classes block text) =
    VObj [("tag", VStr (if String.eqb tag "" then "div" else Str.toLowerCase tag));
          ("id", match id with Some i => VStr i | None => VNull end);
          ("className", VStr (Str.join " " classes));
          ("attrs", VObj match block with
                         | Some (_, ps, _) => block_attrs ps
                         | None => []
                         end);
          ("content", match text with
                      | Some t => Js.or_else (VStr (Str.trim t)) VNull
                      | None => VNull
                      end)].
Proof.
  intros HT HI HC HB HX.
  assert (HI' : forall w, Str.chars <$> id = Some w -> w <> [] /\ forallb Str.is_word w = true).
  { intros w Hw. destruct id as [i|]; [|discriminate]. injection Hw as <-.
    destruct (HI i eq_refl) as [Hi Hiw]. split; [now apply chars_nonempty|exact Hiw]. }
  assert (HC' : word_names (map Str.chars classes)).
  { unfold word_names. apply Forall_map. eapply Forall_impl; [exact HC|].
    intros c [Hc Hcw]. split; [now apply chars_nonempty|exact Hcw]. }
  assert (HB' : good_block (block_of block)).
  { destruct block as [[[o ps] c]|]; [|exact I].
    destruct (HB o ps c eq_refl) as (Ho & Hc & Hps). cbn.
    split; [exact Ho|]. split; [exact Hc|]. apply Forall_map.
    eapply Forall_impl; [exact Hps|]. intros [k v] (Hk & Hpk & Hv). cbn in *.
    split; [now apply chars_nonempty|]. split; [exact Hpk|].
    intros w Hw. destruct v as [v|]; [|discriminate]. injection Hw as <-.
    now apply Hv. }
  assert (HX' : forall l, Str.chars <$> text = Some l -> forallb any_char l = true).
  { intros l Hl. destruct text as [t|]; [|discriminate]. injection Hl as <-.
    now apply HX. }
  destruct (selector_match (Str.chars tag) (Str.chars <$> id) (map Str.chars classes)
              (block_of block) (Str.chars <$> text) HT HI' HC' HB' HX')
    as (c5 & Hm & Hc5).
  unfold parseDomString, selector, Re.exec. rewrite chars_pack.
  rewrite (exec_from_here _ _ _ _ Hm). cbn [caps]. unfold fragment_of.
  assert (Hw : forall c, forallb Str.is_word (Str.chars c) = true -> Str.trim c = c).
  { intros c Hc. rewrite <- (pack_chars c) at 1 2. now apply trim_word. }
  match goal with |- context [capture 1 ?c] => set (cp := c) end.
  assert (H5 : trimmed_or_null (capture 5 cp) =
               match text with
               | Some t => Js.or_else (VStr (Str.trim t)) VNull
               | None => VNull
               end /\
               exists c5', c5 = match text with Some _ => [(5%nat, c5')] | None => [] end).
  { unfold cp. destruct text as [t|]; cbn [fmap option_fmap option_map] in Hc5.
    - destruct Hc5 as (sp & body & Ht & Hsp & ->). split; [|now exists (Str.pack body)].
      cbn [app capture Nat.eqb trimmed_or_null].
      now rewrite (trim_after_spaces sp body Hsp), <- Ht, pack_chars.
    - subst c5. split; [|now exists ""].
      destruct block as [[[o ps] c]|], (map Str.chars classes), (Str.chars <$> id),
        (Str.chars tag); reflexivity. }
  destruct H5 as (H5 & c5' & Hc5').
  assert (H1 : capture 1 cp =
               match Str.chars tag with [] => None | _ :: _ => Some tag end).
  { unfold cp. rewrite pack_chars, Hc5'.
    destruct text, block as [[[o ps] c]|], (map Str.chars classes), (Str.chars <$> id),
      (Str.chars tag); reflexivity. }
  assert (H2 : capture 2 cp = id).
  { unfold cp. rewrite Hc5'. destruct id as [i|]; cbn [fmap option_fmap option_map];
      rewrite ?pack_chars;
      destruct text, block as [[[o ps] c]|], (map Str.chars classes), (Str.chars tag);
      reflexivity. }
  assert (H3 : capture 3 cp =
               match map Str.chars classes with
               | [] => None
               | _ :: _ => Some (Str.pack (tokens (map Str.chars classes)))
               end).
  { unfold cp. rewrite Hc5'.
    destruct text, block as [[[o ps] c]|], (map Str.chars classes), (Str.chars <$> id),
      (Str.chars tag); reflexivity. }
  assert (H4 : parse_attrs (trimmed_or_null (capture 4 cp)) =
               match block with
               | Some (_, ps, _) => block_attrs ps
               | None => []
               end).
  { unfold cp. rewrite Hc5'. destruct block as [[[o ps] c]|].
    - assert (E : capture 4
                    (match text with Some _ => [(5%nat, c5')] | None => [] end
                     ++ [(4%nat, Str.pack (o :: pairs_units
                                   (map (fun kv => (Str.chars (fst kv), Str.chars <$> snd kv)) ps)
                                   ++ [c]))]
                     ++ match map Str.chars classes with
                        | [] => []
                        | _ :: _ => [(3%nat, Str.pack (tokens (map Str.chars classes)))]
                        end
                     ++ match Str.chars <$> id with
                        | Some w => [(2%nat, Str.pack w)]
                        | None => []
                        end
                     ++ match Str.chars tag with
                        | [] => []
                        | _ :: _ => [(1%nat, Str.pack (Str.chars tag))]
                        end) =
                  Some (Str.pack (o :: pairs_units
                          (map (fun kv => (Str.chars (fst kv), Str.chars <$> snd kv)) ps)
                          ++ [c]))).
      { destruct text; reflexivity. }
      cbn [block_of]. rewrite E. destruct HB' as (Ho & Hc & Hps).
      rewrite (parse_block o c _ Ho Hc Hps). apply block_attrs_units.
    - destruct text, (map Str.chars classes), (Str.chars <$> id), (Str.chars tag);
        reflexivity. }
  rewrite H5, H1, H2, H3, H4. clear H1 H2 H3 H4 H5 Hc5 Hc5' cp Hm.
  assert (E3 : Str.join " "
                 match
                   match map Str.chars classes with
                   | [] => None
                   | _ :: _ => Some (Str.pack (tokens (map Str.chars classes)))
                   end
                 with
                 | Some t =>
                     if String.eqb t "" then []
                     else map Str.trim (Str.split_char "." (Str.slice1 t))
                 | None => []
                 end = Str.join " " classes).
  { destruct classes as [|c0 cl]; [reflexivity|]. cbn [map].
    change (String.eqb (Str.pack (tokens (Str.chars c0 :: map Str.chars cl))) "")
      with false. cbn iota. f_equal.
    change (Str.slice1 (Str.pack (tokens (Str.chars c0 :: map Str.chars cl))))
      with (Str.pack (Str.chars c0 ++ tokens (map Str.chars cl))).
    unfold Str.split_char. rewrite chars_pack.
    apply Forall_cons in HC as [[_ Hc0] HC].
    rewrite split_on_tokens; [|exact Hc0|].
    2:{ apply Forall_map. eapply Forall_impl; [exact HC|]. now intros c [_ Hc]. }
    cbn [rev app map]. rewrite pack_chars, (Hw c0 Hc0). f_equal.
    rewrite map_map. clear -HC Hw. induction HC as [|c cl [_ Hc] _ IH]; [reflexivity|].
    cbn [map]. now rewrite pack_chars, (Hw c Hc), IH. }
  rewrite E3. clear E3.
  assert (E2 : trimmed_or_null id = match id with Some i => VStr i | None => VNull end).
  { destruct id as [i|]; [|reflexivity]. destruct (HI i eq_refl) as [Hi Hiw].
    cbn [trimmed_or_null]. rewrite (Hw i Hiw). unfold Js.or_else. cbn [Js.truthy].
    destruct (String.eqb i "") eqn:E; [|reflexivity].
    apply String.eqb_eq in E. contradiction. }
  rewrite E2. clear E2.
  destruct tag as [|a t]; reflexivity.
Qed.

(** X2: a selector spelled as a tag of letters, an id and class names of
    letters, digits, underscores and hyphens, an attribute block (a bracket
    of any of the three kinds, attributes separated by commas, each a name
    or a name, an equals sign and a value, with no white space, comma, colon,
    equals sign or closing bracket inside a name or a value, and a closing
    bracket of any kind; no name is [__proto__] or begins with a digit, so
    that each is an own key in creation order) and, after a space, a text
    with no line terminator (each part optional) is parsed into its parts:
    the tag in lower case, or
    div; the id, or null; the class names joined by spaces; the attributes in
    their order, each with its value, or true for a bare name; and as content
    the text trimmed, or null when nothing is left of it. *)
Theorem parseDomString_selector (tag : string) (id : option string) (classes : list string)
    (block : option (ascii * list (string * option string) * ascii))
    (text : option string) :
  forallb Str.is_letter (Str.chars tag) = true ->
  (forall i, id = Some i -> i <> "" /\ forallb Str.is_word (Str.chars i) = true) ->
  Forall (fun c => c <> "" /\ forallb Str.is_word (Str.chars c) = true) classes ->
  (forall o ps c, block = Some (o, ps, c) ->
     is_open_bracket o = true /\ is_close_bracket c = true /\ Forall plain_attr ps /\
     Forall (fun kv => own_key (fst kv) = true) ps) ->
  (forall t, text = Some t -> forallb any_char (Str.chars t) = true) ->
  parseDomString (selector tag id classes block text) =
    VObj [("tag", VStr (if String.eqb tag "" then "div" else Str.toLowerCase tag));
          ("id", match id with Some i => VStr i | None => VNull end);
          ("className", VStr (Str.join " " classes));
          ("attrs", VObj match block with
                         | Some (_, ps, _) => block_attrs ps
                         | None => []
                         end);
          ("content", match text with
                      | Some t => Js.or_else (VStr (Str.trim t)) VNull
                      | None => VNull
                      end)].
Proof.
  intros HT HI HC HB HX. apply selector_fragment; try assumption.
  intros o ps c Hb. destruct (HB o ps c Hb) as (H1 & H2 & H3 & _). easy.
Qed.

(** X2 at the selector
    "Input#q.wide.big[type=search,required,data-x=] Find it ". *)
Lemma parseDomString_selector_witness :
  parseDomString "Input#q.wide.big[type=search,required,data-x=] Find it " =
    VObj [("tag", VStr "input"); ("id", VStr "q"); ("className", VStr "wide big");
          ("attrs", VObj [("type", VStr "search"); ("required", VBool true);
                          ("data-x", VStr "")]);
          ("content", VStr "Find it")].
Proof.
  refine (parseDomString_selector "Input" (Some "q") ["wide"; "big"]
            (Some ("["%char,
                   [("type", Some "search"); ("required", None); ("data-x", Some "")],
                   "]"%char))
            (Some "Find it ") eq_refl _ _ _ _).
  - intros i [= <-]. split; [discriminate|reflexivity].
  - repeat constructor; discriminate.
  - intros o ps c [= <- <- <-]. split; [reflexivity|]. split; [reflexivity|].
    split; [|repeat constructor].
    repeat constructor; try discriminate; intros v [= <-]; reflexivity.
  - intros t [= <-]. reflexivity.
Defined.

(** ** The attributes a mapping gives *)

Lemma last_write_other (k k' v : string) (b : bool) :
  k <> k' -> last_write k (if b then [(k', v)] else []) = None.
Proof.
  intros Hk. destruct b; [|reflexivity]. cbn [last_write].
  destruct (String.eqb k' k) eqn:E; [|reflexivity].
  apply String.eqb_eq in E. congruence.
Qed.

Lemma last_write_entries (k : string) (m : list (string * value)) :
  NoDup (map fst m) ->
  last_write k (entry_writes m) =
    match Js.lookup_key k m with
    | Some v => if Js.nullish v then None else Some (Js.String v)
    | None => None
    end.
Proof.
  induction m as [|[k' v'] m IH]; [reflexivity|].
  intros Hnd. cbn [map fst] in Hnd. apply NoDup_cons in Hnd as [Hk' Hnd].
  change (entry_writes ((k', v') :: m))
    with ((if Js.nullish v' then [] else [(k', Js.String v')]) ++ entry_writes m).
  rewrite last_write_app. cbn [Js.lookup_key].
  destruct (String.eqb k' k) eqn:E.
  - apply String.eqb_eq in E. subst k'. rewrite (last_write_absent _ _ Hk').
    destruct (Js.nullish v'); [reflexivity|]. cbn [last_write].
    now rewrite String.eqb_refl.
  - rewrite (IH Hnd). destruct (Js.lookup_key k m) as [v|].
    + destruct (Js.nullish v); [|reflexivity].
      destruct (Js.nullish v'); [reflexivity|]. cbn [last_write]. now rewrite E.
    + destruct (Js.nullish v'); [reflexivity|]. cbn [last_write]. now rewrite E.
Qed.

(** The attributes a mapping leaves in the store of the embedding, whatever
    its names. *)
Lemma setup_mapping_writes (e : ref) (item item' : value)
    (m : list (string * value)) (h h' : heap) :
  is_Some (h !! e) ->
  Js.get "attrs" item = Some (VObj m) ->
  NoDup (map fst m) ->
  domBuilderBasicSetup e item h = Some (h', item') ->
  forall k : string, k <> "class" -> k <> "id" ->
    attribute e k h' =
      match Js.lookup_key k m with
      | Some v => if Js.nullish v then attribute e k h else Some (Js.String v)
      | None => attribute e k h
      end.
Proof.
  intros He Ha Hnd H k Hc Hi.
  destruct (setup_item_fields _ _ _ _ _ H)
    as (ws & cls & cn & attrs & id & -> & _ & _ & Ha0 & _ & _ & Ha' & _
        & pw & Hp & ->).
  rewrite Ha in Ha0. injection Ha0 as <-.
  unfold pair_writes in Hp. rewrite Ha' in Hp. cbn in Hp.
  rewrite attr_writes_entries in Hp. injection Hp as <-.
  rewrite attribute_write_all by assumption.
  rewrite !last_write_app, !last_write_other by assumption.
  rewrite (last_write_entries _ _ Hnd).
  destruct (Js.lookup_key k m) as [v|]; [|reflexivity].
  now destruct (Js.nullish v).
Qed.

(** X3: when [attrs] is a mapping whose attributes are hosted (each value
    null or undefined, or printable under a host name), a call of the setup
    that completes gives the element, for every name without upper-case
    letters other than class and id, the string form of the value the
    mapping has for that name; a name whose value is null or undefined, and
    a name the mapping has not, keep the attribute the element had. *)
Theorem setup_mapping_attributes (e : ref) (item item' : value)
    (m : list (string * value)) (h h' : heap) :
  is_Some (h !! e) ->
  Js.get "attrs" item = Some (VObj m) ->
  NoDup (map fst m) ->
  hosted_attrs (VObj m) = true ->
  domBuilderBasicSetup e item h = Some (h', item') ->
  forall k : string, no_upper k = true -> k <> "class" -> k <> "id" ->
    attribute e k h' =
      match Js.lookup_key k m with
      | Some v => if Js.nullish v then attribute e k h else Some (Js.String v)
      | None => attribute e k h
      end.
Proof.
  intros He Ha Hnd _ H k _. exact (setup_mapping_writes e item item' m h h' He Ha Hnd H k).
Qed.

(** X3 at the record [{ attrs: { class: "from-attrs", title: null } }], for
    the name title. *)
Lemma setup_mapping_attributes_witness :
  exists (h' : heap) (item' : value),
    domBuilderBasicSetup 0 class_in_attrs one_div = Some (h', item') /\
    attribute 0 "title" h' = attribute 0 "title" one_div.
Proof.
  eexists _, _. split; [vm_compute; reflexivity|].
  refine (setup_mapping_attributes 0 class_in_attrs _
            [("class", VStr "from-attrs"); ("title", VNull)] one_div _
            _ eq_refl _ eq_refl eq_refl "title" eq_refl _ _); try discriminate.
  - now exists (Node "div" ∅ []).
  - apply (bool_decide_unpack _). vm_compute. exact I.
Defined.

(** ** When the setup throws *)











(** ** Items that build nothing *)

Lemma step_skipped (recurse : list value -> option ref -> heap -> option heap)
    (st : loop) (item : value) :
  skipped item = true -> step recurse st item = Some st.
Proof.
  unfold step. destruct item; cbn [skipped lower]; try discriminate;
    try reflexivity.
  - intros H. apply andb_prop in H as [H1 H2]. rewrite H1. now rewrite H2.
  - cbn [Js.nullish Js.get mbind option_bind].
    destruct (Js.lookup_key "condition" m) as [c|]; [|discriminate].
    intros H. apply andb_prop in H as [H1 H2]. cbn [default].
    unfold Js.coalesce, id. apply negb_true_iff in H1, H2. now rewrite H1, H2.
Qed.

Lemma forEach_item_kept
    (recurse : list value -> option ref -> heap -> option heap)
    (l : list value) (st : loop) :
  forEach_item recurse (List.filter kept l) st = forEach_item recurse l st.
Proof.
  revert st. induction l as [|item l IH]; intros st; [reflexivity|].
  cbn [List.filter forEach_item]. unfold kept at 1.
  destruct (skipped item) eqn:E; cbn [negb].
  - rewrite (step_skipped _ _ _ E). cbn [mbind option_bind]. apply IH.
  - cbn [forEach_item]. destruct (step recurse st item); cbn [mbind option_bind];
      [apply IH|reflexivity].
Qed.

Lemma nesting_filter (f : value -> bool) (l : list value) :
  (list_max (map nesting (List.filter f l)) <= list_max (map nesting l))%nat.
Proof.
  induction l as [|item l IH]; simpl; [lia|].
  destruct (f item); simpl; lia.
Qed.

(** X5: the items the builder passes over leave no trace: an array gives the
    same result, element returned and store, as the array without its null
    and undefined items, its strings that have no parse and its objects whose
    condition is false. *)
Theorem domBuilder_without_skipped (l : list value) (parent : option ref)
    (emptyParent : bool) (h : heap) :
  domBuilder (List.filter kept l) parent emptyParent h =
  domBuilder l parent emptyParent h.
Proof.
  rewrite <- (domBuilder_at_domBuilder (S (nesting (VArr l))) (List.filter kept l)).
  - unfold domBuilder. cbn [domBuilder_at]. now rewrite forEach_item_kept.
  - cbn [nesting]. pose proof (nesting_filter kept l). lia.
Qed.

(** ** Strings as shorthand *)

Lemma lower_lower (item : value) : lower (lower item) = lower item.
Proof.
  destruct item; try reflexivity. cbn [lower].
  destruct (negb (String.eqb s "")) eqn:E; cbn [lower]; [|now rewrite E].
  unfold parseDomString. now destruct (Re.exec dom_regex s).
Qed.

Lemma forEach_item_lower
    (recurse : list value -> option ref -> heap -> option heap)
    (l : list value) (st : loop) :
  forEach_item recurse (map lower l) st = forEach_item recurse l st.
Proof.
  revert st. induction l as [|item l IH]; intros st; [reflexivity|].
  cbn [map forEach_item].
  assert (Hs : step recurse st (lower item) = step recurse st item).
  { unfold step. now rewrite lower_lower. }
  rewrite Hs. destruct (step recurse st item); cbn [mbind option_bind];
    [apply IH|reflexivity].
Qed.

(** X6: a string item is shorthand for what the parser returns for it: an
    array gives the same result as the array in which every string that is
    not empty has been replaced by its parse. *)
Theorem domBuilder_strings_are_shorthand (l : list value) (parent : option ref)
    (emptyParent : bool) (h : heap) :
  domBuilder (map lower l) parent emptyParent h = domBuilder l parent emptyParent h.
Proof.
  set (d := S (Nat.max (nesting (VArr (map lower l))) (nesting (VArr l)))).
  rewrite <- (domBuilder_at_domBuilder d (map lower l)) by (unfold d; lia).
  rewrite <- (domBuilder_at_domBuilder d l) by (unfold d; lia).
  unfold d. cbn [domBuilder_at]. now rewrite forEach_item_lower.
Qed.

(** ** The element returned *)

Lemma create_element_main (item item1 : value) (st st1 : loop) :
  create_element item st = Some (item1, st1) -> mainElement st1 = mainElement st.
Proof.
  unfold create_element, createElement. intros H.
  apply bind_Some in H as (tag & _ & H).
  destruct tag;
    try (apply bind_Some in H as (res & _ & H); now injection H as _ <-).
  apply bind_Some in H as ([[[item' parent'] el'] h'] & _ & H).
  now injection H as _ <-.
Qed.

Lemma step_main_stable
    (recurse : list value -> option ref -> heap -> option heap)
    (st st' : loop) (item : value) (m : ref) :
  mainElement st = Some m -> step recurse st item = Some st' ->
  mainElement st' = Some m.
Proof.
  unfold step. intros Hm H.
  destruct (Js.nullish (lower item)); [now injection H as <-|].
  apply bind_Some in H as (c & _ & H).
  destruct (Js.truthy _); [|now injection H as <-].
  unfold build_item in H.
  apply bind_Some in H as ([item1 st1] & Hc & H).
  apply bind_Some in H as (h1 & _ & H).
  apply bind_Some in H as (h2 & _ & H).
  apply bind_Some in H as (h3 & _ & H).
  apply bind_Some in H as (h4 & _ & H).
  injection H as <-. cbn [mainElement].
  now rewrite (create_element_main _ _ _ _ Hc), Hm.
Qed.

Lemma forEach_item_main_stable
    (recurse : list value -> option ref -> heap -> option heap)
    (l : list value) (st st' : loop) (m : ref) :
  mainElement st = Some m -> forEach_item recurse l st = Some st' ->
  mainElement st' = Some m.
Proof.
  revert st. induction l as [|item l IH]; intros st Hm H.
  - now injection H as <-.
  - cbn [forEach_item] in H. apply bind_Some in H as (st1 & Hs & H).
    apply (IH st1); [|exact H]. now apply (step_main_stable _ _ _ _ _ Hm Hs).
Qed.

Lemma forEach_item_app
    (recurse : list value -> option ref -> heap -> option heap)
    (l1 l2 : list value) (st : loop) :
  forEach_item recurse (l1 ++ l2) st =
  forEach_item recurse l1 st ≫= forEach_item recurse l2.
Proof.
  revert st. induction l1 as [|item l1 IH]; intros st; [reflexivity|].
  cbn [app forEach_item]. destruct (step recurse st item); cbn [mbind option_bind];
    [apply IH|reflexivity].
Qed.

Lemma nesting_app_l (l1 l2 : list value) :
  (nesting (VArr l1) <= nesting (VArr (l1 ++ l2)))%nat.
Proof.
  cbn [nesting]. induction l1 as [|x l1 IH]; simpl; lia.
Qed.

(** X7: the element returned is the first one created: when the build of
    the first items of an array returns an element, the build of the whole
    array, if it completes, returns that same element. *)
Theorem domBuilder_returns_first (l1 l2 : list value) (parent : option ref)
    (emptyParent : bool) (h h1 h2 : heap) (e : ref) (r : option ref) :
  domBuilder l1 parent emptyParent h = Some (Some e, h1) ->
  domBuilder (l1 ++ l2) parent emptyParent h = Some (r, h2) ->
  r = Some e.
Proof.
  rewrite <- (domBuilder_at_domBuilder (S (nesting (VArr (l1 ++ l2)))) l1)
    by (pose proof (nesting_app_l l1 l2); lia).
  unfold domBuilder. cbn [domBuilder_at]. rewrite forEach_item_app.
  intros H1 H2.
  apply bind_Some in H1 as (st1 & Hf1 & H1). injection H1 as Hm _.
  rewrite Hf1 in H2. cbn [mbind option_bind] in H2.
  apply bind_Some in H2 as (st2 & Hf2 & H2). injection H2 as <- _.
  now apply (forEach_item_main_stable _ _ _ _ _ Hm Hf2).
Qed.

(** X7 at the array ["p", "span"] under no parent. *)
Lemma domBuilder_returns_first_witness :
  exists h2 : heap,
    domBuilder ([VStr "p"] ++ [VStr "span"]) None false [] = Some (Some 0%nat, h2).
Proof.
  destruct (domBuilder ([VStr "p"] ++ [VStr "span"]) None false [])
    as [[r h2]|] eqn:E; [|vm_compute in E; discriminate].
  exists h2. f_equal. f_equal.
  exact (domBuilder_returns_first [VStr "p"] [VStr "span"] None false [] _ h2
           0%nat r eq_refl E).
Defined.

(** ** A chain with a segment that has no parse *)

Lemma chain_step_unparsed (len idx : nat) (seg : value)
    (st : value * option ref * option ref * heap) :
  unparsed seg = true -> chain_step len st idx seg = None.
Proof.
  destruct st as [[[item p] el0] h]. unfold chain_step.
  destruct seg; cbn [unparsed parseDomString_of mbind option_bind];
    try reflexivity.
  intros H. destruct (parseDomString s); try discriminate;
    destruct (S idx =? len)%nat; reflexivity.
Qed.

Lemma chain_loop_unparsed (len : nat) (tags : list value) (idx : nat)
    (st : value * option ref * option ref * heap) :
  existsb unparsed tags = true -> chain_loop len idx tags st = None.
Proof.
  revert idx st. induction tags as [|seg tags IH]; intros idx st H;
    [discriminate|].
  cbn [existsb] in H. cbn [chain_loop].
  destruct (unparsed seg) eqn:E.
  - now rewrite chain_step_unparsed.
  - destruct (chain_step len st idx seg); cbn [mbind option_bind];
      [now apply IH|reflexivity].
Qed.

Lemma forEach_item_throws
    (recurse : list value -> option ref -> heap -> option heap)
    (l : list value) (item : value) (st : loop) :
  In item l -> (forall st', step recurse st' item = None) ->
  forEach_item recurse l st = None.
Proof.
  revert st. induction l as [|x l IH]; intros st Hin Hs; [destruct Hin|].
  cbn [forEach_item]. destruct Hin as [->|Hin].
  - now rewrite Hs.
  - destruct (step recurse st x); cbn [mbind option_bind];
      [now apply IH|reflexivity].
Qed.

(** X8: an unparsable segment anywhere in a tag chain makes the whole build
    throw: when an array holds an object that is not passed over and whose
    [tag] is a sequence with a string that has no parse, or with a value that
    is not a string (and has no [match] method of its own), the builder does
    not complete (whereas the same string as an item of its
    own is passed over). *)
Theorem domBuilder_chain_segment_throws (l : list value)
    (m : list (string * value)) (tags : list value) (parent : option ref)
    (emptyParent : bool) (h : heap) :
  In (VObj m) l ->
  skipped (VObj m) = false ->
  Js.lookup_key "tag" m = Some (VArr tags) ->
  existsb unparsed tags = true ->
  domBuilder l parent emptyParent h = None.
Proof.
  intros Hin Hk Ht Hu. unfold domBuilder. cbn [domBuilder_at].
  rewrite (forEach_item_throws _ l (VObj m)); [reflexivity|exact Hin|].
  intros st. unfold step. cbn [lower Js.nullish Js.get mbind option_bind].
  assert (Hc : Js.truthy (Js.coalesce (default VUndef (Js.lookup_key "condition" m))
                            (VBool true)) = true).
  { cbn [skipped] in Hk. unfold Js.coalesce.
    destruct (Js.lookup_key "condition" m) as [c|]; [|reflexivity].
    cbn [default]. unfold id.
    destruct (Js.nullish c); [reflexivity|]. now destruct (Js.truthy c). }
  rewrite Hc. unfold build_item, create_element.
  cbn [Js.get mbind option_bind]. rewrite Ht. cbn [default].
  unfold id. now rewrite chain_loop_unparsed.
Qed.

(** X8 at the array [[{ tag: ["div", "!"] }]]. *)
Lemma domBuilder_chain_segment_throws_witness :
  domBuilder [VObj [("tag", VArr [VStr "div"; VStr "!"])]] None false [] = None.
Proof.
  apply (domBuilder_chain_segment_throws _ [("tag", VArr [VStr "div"; VStr "!"])]
           [VStr "div"; VStr "!"]); [now left|reflexivity|reflexivity|].
  vm_compute. reflexivity.
Defined.

(** ** Items that build one element: the order of the children *)

Lemma resolve_content_plain (item c : value) (e : ref) (h : heap) :
  Js.get "content" item = Some c -> is_function c = false ->
  resolve_content item (Some e) h = Some (fill e c h).
Proof.
  intros Hc Hf. unfold resolve_content, fill. rewrite Hc.
  cbn [mbind option_bind]. destruct (Js.truthy c) eqn:Et; [|reflexivity].
  destruct c; try discriminate; reflexivity.
Qed.

Lemma resolve_children_plain
    (recurse : list value -> option ref -> heap -> option heap)
    (item ch : value) (el0 : option ref) (h : heap) :
  Js.get "children" item = Some ch -> Js.isArray ch = false ->
  resolve_children recurse item el0 h = Some h.
Proof.
  intros Hc Ha. unfold resolve_children. rewrite Hc. cbn [mbind option_bind].
  destruct ch; try discriminate; reflexivity.
Qed.

Lemma run_callback_plain (item cb : value) (el0 : option ref) (h : heap) :
  Js.get "callback" item = Some cb -> is_function cb = false ->
  run_callback item el0 h = Some h.
Proof.
  intros Hc Hf. unfold run_callback. rewrite Hc. cbn [mbind option_bind].
  destruct cb; try discriminate; reflexivity.
Qed.

Lemma setup_writes_frame (item item' : value) (ws : list (string * string))
    (k : string) :
  setup_writes item = Some (ws, item') ->
  k <> "attrs" -> k <> "className" -> Js.get k item' = Js.get k item.
Proof.
  intros H Hk1 Hk2.
  destruct (setup_writes_item _ _ _ H) as (item1 & Hr & Hn & _).
  destruct (resolve_alias_spec _ _ Hr) as (Hf1 & _).
  destruct (normalize_attrs_spec _ _ Hn) as (Hf2 & _).
  now rewrite Hf2, Hf1.
Qed.

(** The state an item with a single tag, a plain content, no children array
    and no callback leaves. *)
Lemma build_item_plain
    (recurse : list value -> option ref -> heap -> option heap)
    (item item' t c ch cb : value) (ws : list (string * string)) (st : loop) :
  Js.get "tag" item = Some t -> Js.isArray t = false ->
  Js.get "content" item = Some c -> is_function c = false ->
  Js.get "children" item = Some ch -> Js.isArray ch = false ->
  Js.get "callback" item = Some cb -> is_function cb = false ->
  setup_writes item = Some (ws, item') ->
  build_item recurse item st =
    let e := length (dom st) in
    Some (Loop (match grand_parent st with Some g => Some g | None => parent st end)
               (grand_parent st) (Some e)
               (match mainElement st with None => Some e | Some m => Some m end)
               (attach (parent st) e
                  (fill e c
                     (write_all e ws
                        (dom st ++ [Node (Js.String (Js.coalesce t (VStr "div"))) ∅ []]))))).
Proof.
  intros Ht Hta Hc Hcf Hch Hcha Hcb Hcbf Hw.
  unfold build_item.
  assert (Hce : create_element item st =
            Some (item',
                  Loop (parent st) (grand_parent st) (Some (length (dom st)))
                       (mainElement st)
                       (write_all (length (dom st)) ws
                          (dom st ++ [Node (Js.String (Js.coalesce t (VStr "div"))) ∅ []])))).
  { unfold create_element. rewrite Ht. cbn [mbind option_bind].
    unfold createElement.
    destruct t; try discriminate;
      rewrite setup_by_writes, Hw; reflexivity. }
  rewrite Hce. cbn [mbind option_bind el dom parent grand_parent mainElement].
  rewrite (resolve_content_plain item' c).
  2:{ now rewrite (setup_writes_frame _ _ _ "content" Hw). }
  2:{ exact Hcf. }
  cbn [mbind option_bind].
  rewrite (resolve_children_plain recurse item' ch).
  2:{ now rewrite (setup_writes_frame _ _ _ "children" Hw). }
  2:{ exact Hcha. }
  cbn [mbind option_bind].
  assert (Hap : append_to (parent st) (Some (length (dom st)))
                  (fill (length (dom st)) c
                     (write_all (length (dom st)) ws
                        (dom st ++ [Node (Js.String (Js.coalesce t (VStr "div"))) ∅ []])))
                = Some (attach (parent st) (length (dom st))
                          (fill (length (dom st)) c
                             (write_all (length (dom st)) ws
                                (dom st ++ [Node (Js.String (Js.coalesce t (VStr "div"))) ∅ []]))))).
  { unfold append_to, attach. now destruct (parent st). }
  rewrite Hap. cbn [mbind option_bind].
  rewrite (run_callback_plain item' cb).
  2:{ now rewrite (setup_writes_frame _ _ _ "callback" Hw). }
  2:{ exact Hcbf. }
  reflexivity.
Qed.

(** *** The store after one more element *)

Lemma lookup_map_node (f : node -> node) (h : heap) (i : nat) :
  map f h !! i = f <$> h !! i.
Proof.
  revert i. induction h as [|n h IH]; intros [|i]; cbn; try reflexivity. apply IH.
Qed.




Lemma kids_below_filter (e : ref) (ks : list kid) :
  kids_below e ks -> List.filter (fun k => negb (is_kid e k)) ks = ks.
Proof.
  intros H. apply forallb_filter_id. apply forallb_forall. intros k Hin.
  unfold kids_below in H. rewrite Forall_forall in H.
  specialize (H k (proj2 (list_elem_of_In _ _) Hin)).
  destruct k as [r|s]; [|reflexivity]. cbn.
  apply negb_true_iff, Nat.eqb_neq. lia.
Qed.

Lemma children_appendChild (p e : ref) (h : heap) :
  (p < length h)%nat -> kids_below e (children p h) ->
  children p (appendChild p e h) = children p h ++ [KNode e].
Proof.
  intros Hp Hk. unfold children, appendChild in *.
  rewrite list_lookup_alter_eq, lookup_map_node.
  destruct (lookup_lt_is_Some_2 h p Hp) as [n Hn]. rewrite Hn in Hk |- *.
  cbn. now rewrite (kids_below_filter _ _ Hk).
Qed.

Lemma length_fill (e : ref) (c : value) (h : heap) : length (fill e c h) = length h.
Proof. unfold fill. destruct (Js.truthy c); [apply length_alter|reflexivity]. Qed.

Lemma length_write_all (e : ref) (ws : list (string * string)) (h : heap) :
  length (write_all e ws h) = length h.
Proof. rewrite write_all_alter. apply length_alter. Qed.

Lemma length_attach (p : option ref) (e : ref) (h : heap) :
  length (attach p e h) = length h.
Proof.
  destruct p as [q|]; [|reflexivity]. unfold attach, appendChild.
  now rewrite length_alter, length_map.
Qed.


Lemma tag_of_alter (f : node -> node) (e r : ref) (h : heap) :
  (forall n, tagName (f n) = tagName n) -> tag_of r (alter f e h) = tag_of r h.
Proof.
  intros Hf. unfold tag_of. destruct (decide (e = r)) as [->|Hne].
  - rewrite list_lookup_alter_eq. destruct (h !! r); cbn; [|reflexivity].
    now rewrite Hf.
  - now rewrite list_lookup_alter_ne.
Qed.

Lemma tag_of_fill (e r : ref) (c : value) (h : heap) :
  tag_of r (fill e c h) = tag_of r h.
Proof.
  unfold fill. destruct (Js.truthy c); [|reflexivity]. now apply tag_of_alter.
Qed.

Lemma tag_of_write_all (e r : ref) (ws : list (string * string)) (h : heap) :
  tag_of r (write_all e ws h) = tag_of r h.
Proof.
  rewrite write_all_alter. apply tag_of_alter. intros n. apply write_node_frame.
Qed.

Lemma tag_of_attach (p : option ref) (e r : ref) (h : heap) :
  tag_of r (attach p e h) = tag_of r h.
Proof.
  destruct p as [q|]; [|reflexivity]. unfold attach, appendChild.
  rewrite tag_of_alter by reflexivity.
  unfold tag_of. rewrite lookup_map_node. now destruct (h !! r).
Qed.

Lemma grown_tags (p : option ref) (e : ref) (ws : list (string * string))
    (c : value) (tg : string) (h : heap) (r : ref) :
  e = length h ->
  tag_of r (attach p e (fill e c (write_all e ws (h ++ [Node tg ∅ []])))) =
    if decide (r = e) then Some tg else tag_of r h.
Proof.
  intros He. rewrite tag_of_attach, tag_of_fill, tag_of_write_all.
  unfold tag_of. destruct (decide (r = e)) as [->|Hne].
  - rewrite He, list_lookup_middle; reflexivity.
  - destruct (decide (r < length h)%nat) as [Hlt|Hge].
    + now rewrite lookup_app_l.
    + rewrite !lookup_ge_None_2; [reflexivity|lia|rewrite last_length; lia].
Qed.

(** *** One step, and the whole array *)




Lemma leaf_string (s : string) :
  Js.nullish (parseDomString s) = false -> leaf (VStr s) = true.
Proof.
  unfold leaf. cbn [lower]. destruct (negb (String.eqb s "")); [|reflexivity].
  unfold parseDomString. destruct (Re.exec dom_regex s) as [m|]; [|discriminate].
  intros _. unfold fragment_of. cbn.
  destruct (trimmed_or_null_spec (capture 5 (caps m))) as [->|(t & -> & _)];
    reflexivity.
Qed.





(** ** Children *)


Lemma children_fill_new (e : ref) (c : value) (ws : list (string * string))
    (n : node) (h : heap) :
  e = length h -> childNodes n = [] ->
  children e (fill e c (write_all e ws (h ++ [n]))) = content_kids c.
Proof.
  intros -> Hn. unfold fill, content_kids.
  assert (Hw : children (length h) (write_all (length h) ws (h ++ [n])) = []).
  { rewrite children_write_all. unfold children.
    now rewrite list_lookup_middle. }
  destruct (Js.truthy c); [|exact Hw]. cbn [andb].
  unfold children, set_innerHTML. rewrite list_lookup_alter_eq.
  rewrite write_all_alter, list_lookup_alter_eq, list_lookup_middle by reflexivity.
  cbn. now destruct (String.eqb (Js.String c) "").
Qed.




(** ** Tag chains *)

Lemma lookup_key_absent (k : string) (m : list (string * value)) :
  k ∉ map fst m -> Js.lookup_key k m = None.
Proof.
  induction m as [|[k' v] m IH]; [reflexivity|]. cbn [map fst Js.lookup_key].
  intros H. apply not_elem_of_cons in H as [Hk Hm].
  destruct (String.eqb k' k) eqn:E; [|now apply IH].
  apply String.eqb_eq in E. congruence.
Qed.






(** *** The store of a chain *)

Lemma length_grow (p : option ref) (ws : list (string * string)) (c : value)
    (tg : string) (h : heap) :
  length (grow p ws c tg h) = S (length h).
Proof.
  unfold grow. now rewrite length_attach, length_fill, length_write_all, last_length.
Qed.

Lemma tag_of_grow (p : option ref) (ws : list (string * string)) (c : value)
    (tg : string) (h : heap) (r : ref) :
  tag_of r (grow p ws c tg h) =
    if decide (r = length h) then Some tg else tag_of r h.
Proof. unfold grow. now apply grown_tags. Qed.

Lemma children_attach (p : option ref) (e r : ref) (h : heap) :
  (r < length h)%nat -> kids_below e (children r h) ->
  children r (attach p e h) =
    children r h ++ (if decide (p = Some r) then [KNode e] else []).
Proof.
  intros Hr Hk. destruct p as [q|]; cbn [attach].
  - destruct (decide (Some q = Some r)) as [[= ->]|Hne].
    + now apply children_appendChild.
    + rewrite app_nil_r. unfold children, appendChild in *.
      rewrite list_lookup_alter_ne by congruence. rewrite lookup_map_node.
      destruct (h !! r) as [n|]; [|reflexivity]. cbn.
      now apply kids_below_filter.
  - destruct (decide (None = Some r)); [discriminate|]. now rewrite app_nil_r.
Qed.


Lemma content_kids_below (n : nat) (c : value) : kids_below n (content_kids c).
Proof. unfold content_kids. destruct (_ && _); repeat constructor. Qed.

(** The new element holds its raw content and nothing else. *)
Lemma children_grow_new (p : option ref) (ws : list (string * string))
    (c : value) (tg : string) (h : heap) :
  (forall q, p = Some q -> (q < length h)%nat) ->
  children (length h) (grow p ws c tg h) = content_kids c.
Proof.
  intros Hp. unfold grow.
  assert (Hc : children (length h) (fill (length h) c
                 (write_all (length h) ws (h ++ [Node tg ∅ []]))) = content_kids c).
  { now apply children_fill_new. }
  rewrite children_attach.
  - rewrite Hc. destruct (decide (p = Some (length h))) as [->|_].
    + specialize (Hp _ eq_refl). lia.
    + apply app_nil_r.
  - rewrite length_fill, length_write_all, last_length. lia.
  - rewrite Hc. apply content_kids_below.
Qed.

Lemma attribute_alter_children (f : node -> node) (e r : ref) (k : string)
    (h : heap) :
  (forall n, attributes (f n) = attributes n) ->
  attribute r k (alter f e h) = attribute r k h.
Proof.
  intros Hf. unfold attribute. destruct (decide (e = r)) as [->|Hne].
  - rewrite list_lookup_alter_eq. destruct (h !! r); cbn; [|reflexivity].
    now rewrite Hf.
  - now rewrite list_lookup_alter_ne.
Qed.

Lemma attribute_attach (p : option ref) (e r : ref) (k : string) (h : heap) :
  attribute r k (attach p e h) = attribute r k h.
Proof.
  destruct p as [q|]; [|reflexivity]. unfold attach, appendChild.
  rewrite attribute_alter_children by reflexivity.
  unfold attribute. rewrite lookup_map_node. now destruct (h !! r).
Qed.

Lemma attribute_fill (e r : ref) (c : value) (k : string) (h : heap) :
  attribute r k (fill e c h) = attribute r k h.
Proof.
  unfold fill. destruct (Js.truthy c); [|reflexivity].
  now apply attribute_alter_children.
Qed.

(** The attributes of the new element are its writes. *)
Lemma attribute_grow_new (p : option ref) (ws : list (string * string))
    (c : value) (tg : string) (h : heap) (k : string) :
  attribute (length h) k (grow p ws c tg h) = last_write k ws.
Proof.
  unfold grow. rewrite attribute_attach, attribute_fill.
  rewrite attribute_write_all.
  - unfold attribute. rewrite list_lookup_middle by reflexivity. cbn.
    rewrite lookup_empty. now destruct (last_write k ws).
  - rewrite list_lookup_middle by reflexivity. eauto.
Qed.





(** *** The segments of a chain *)












Lemma lookup_key_Forall (P : string * value -> Prop) (k : string) (v : value)
    (m : list (string * value)) :
  Forall P m -> Js.lookup_key k m = Some v -> P (k, v).
Proof.
  induction m as [|[k' v'] m IH]; [discriminate|]. cbn [Js.lookup_key].
  intros H. apply Forall_cons in H as [H0 Hm].
  destruct (String.eqb k' k) eqn:E; [|now apply IH].
  apply String.eqb_eq in E. subst k'. now intros [= <-].
Qed.




(** ** The callback *)





(** ** A selector as an item *)

Lemma selector_empty (tag : string) (id : option string) (classes : list string)
    (block : option (ascii * list (string * option string) * ascii))
    (text : option string) :
  selector tag id classes block text = "" ->
  tag = "" /\ id = None /\ classes = [] /\ block = None /\ text = None.
Proof.
  unfold selector, selector_units. intros H.
  apply (f_equal Str.chars) in H. rewrite chars_pack in H. cbn in H.
  apply app_eq_nil in H as [Ht H]. apply app_eq_nil in H as [Hi H].
  apply app_eq_nil in H as [Hc H]. apply app_eq_nil in H as [Hb Hx].
  split; [rewrite <- (pack_chars tag), Ht; reflexivity|].
  split; [destruct id; [discriminate|reflexivity]|].
  split; [destruct classes; [reflexivity|discriminate]|].
  split; [destruct block as [[[o ps] c]|]; [discriminate|reflexivity]|].
  destruct text; [discriminate|reflexivity].
Qed.

Lemma join_nonempty (sep c : string) (cl : list string) :
  c <> "" -> Str.join sep (c :: cl) <> "".
Proof.
  destruct c as [|a c]; [congruence|]. intros _.
  destruct cl; cbn; discriminate.
Qed.

(** The writes of the setup for a fragment. *)
Lemma fragment_writes (tg cls : string) (idv content : value)
    (a : list (string * value)) :
  exists item',
    setup_writes (VObj [("tag", VStr tg); ("id", idv); ("className", VStr cls);
                        ("attrs", VObj a); ("content", content)]) =
      Some (entry_writes a
            ++ (if Js.truthy (VStr cls) then [("class", cls)] else [])
            ++ (if Js.truthy idv then [("id", Js.String idv)] else []), item').
Proof.
  eexists. unfold setup_writes.
  change (resolve_alias (VObj [("tag", VStr tg); ("id", idv); ("className", VStr cls);
                               ("attrs", VObj a); ("content", content)]))
    with (Some (VObj [("tag", VStr tg); ("id", idv); ("className", VStr cls);
                      ("attrs", VObj a); ("content", content)])).
  cbn [mbind option_bind].
  change (normalize_attrs (VObj [("tag", VStr tg); ("id", idv); ("className", VStr cls);
                                 ("attrs", VObj a); ("content", content)]))
    with (Some (VObj [("tag", VStr tg); ("id", idv); ("className", VStr cls);
                      ("attrs", Js.entries a); ("content", content)])).
  cbn [mbind option_bind].
  change (pair_writes (VObj [("tag", VStr tg); ("id", idv); ("className", VStr cls);
                             ("attrs", Js.entries a); ("content", content)]))
    with (attr_writes (map (fun kv => VArr [VStr (fst kv); snd kv]) a)).
  rewrite attr_writes_entries. reflexivity.
Qed.

(** The object of a block has each name once, only names of the block, and
    no null value. *)
Lemma block_attrs_facts (ps : list (string * option string)) :
  NoDup (map fst (block_attrs ps)) /\
  (forall k, k ∉ map fst ps -> Js.lookup_key k (block_attrs ps) = None) /\
  Forall (fun kv => Js.nullish (snd kv) = false) (block_attrs ps).
Proof.
  unfold block_attrs.
  assert (H : forall acc : list (string * value),
            NoDup (map fst acc) ->
            Forall (fun kv => Js.nullish (snd kv) = false) acc ->
            NoDup (map fst (fold_left (fun m kv => Js.assign (fst kv) (attr_value (snd kv)) m)
                                      ps acc)) /\
            (forall k, k ∉ map fst ps ->
               Js.lookup_key k (fold_left (fun m kv => Js.assign (fst kv)
                                                        (attr_value (snd kv)) m) ps acc) =
               Js.lookup_key k acc) /\
            Forall (fun kv => Js.nullish (snd kv) = false)
              (fold_left (fun m kv => Js.assign (fst kv) (attr_value (snd kv)) m) ps acc)).
  { induction ps as [|[k v] ps IH]; intros acc Hn Hf.
    - split; [exact Hn|]. split; [reflexivity|exact Hf].
    - cbn [fold_left fst snd map].
      destruct (IH (Js.assign k (attr_value v) acc)) as (H1 & H2 & H3).
      + now apply assign_NoDup.
      + apply assign_Forall; [now destruct v|exact Hf].
      + split; [exact H1|]. split; [|exact H3].
        intros k' Hk'. apply not_elem_of_cons in Hk' as [Hne Hk'].
        rewrite (H2 k' Hk'), lookup_assign.
        destruct (String.eqb k k') eqn:E; [|reflexivity].
        apply String.eqb_eq in E. congruence. }
  destruct (H []) as (H1 & H2 & H3); [constructor|constructor|].
  split; [exact H1|]. split; [|exact H3]. intros k Hk. now rewrite (H2 k Hk).
Qed.

(** A selector as an item in the embedding, whatever the names of its
    attributes. *)
Lemma selector_at (tag : string) (id : option string)
    (classes : list string)
    (block : option (ascii * list (string * option string) * ascii))
    (text : option string) (parent : option ref) (h : heap) :
  forallb Str.is_letter (Str.chars tag) = true ->
  (forall i, id = Some i -> i <> "" /\ forallb Str.is_word (Str.chars i) = true) ->
  Forall (fun c => c <> "" /\ forallb Str.is_word (Str.chars c) = true) classes ->
  (forall o ps c, block = Some (o, ps, c) ->
     is_open_bracket o = true /\ is_close_bracket c = true /\
     Forall plain_attr ps /\ ("class" ∉ map fst ps) /\ ("id" ∉ map fst ps)) ->
  (forall t, text = Some t -> forallb any_char (Str.chars t) = true) ->
  (forall q, parent = Some q -> (q < length h)%nat) ->
  exists h' : heap,
    domBuilder [VStr (selector tag id classes block text)] parent false h =
      Some (Some (length h), h') /\
    length h' = S (length h) /\
    tag_of (length h) h' =
      Some (if String.eqb tag "" then "div" else Str.toLowerCase tag) /\
    attribute (length h) "id" h' = id /\
    attribute (length h) "class" h' =
      match classes with
      | [] => None
      | _ :: _ => Some (Str.join " " classes)
      end /\
    (forall k, k <> "class" -> k <> "id" ->
       attribute (length h) k h' =
         match block with
         | Some (_, ps, _) => Js.String <$> Js.lookup_key k (block_attrs ps)
         | None => None
         end) /\
    children (length h) h' =
      match text with
      | Some t => if String.eqb (Str.trim t) "" then [] else [KMarkup (Str.trim t)]
      | None => []
      end.
Proof.
  intros HT HI HC HB HX Hp.
  assert (HB' : forall o ps c, block = Some (o, ps, c) ->
            is_open_bracket o = true /\ is_close_bracket c = true /\ Forall plain_attr ps).
  { intros o ps c Hb. destruct (HB o ps c Hb) as (H1 & H2 & H3 & _). easy. }
  pose proof (selector_fragment tag id classes block text HT HI HC HB' HX) as Hf.
  set (s := selector tag id classes block text) in *.
  set (tg := if String.eqb tag "" then "div" else Str.toLowerCase tag) in *.
  set (a := match block with Some (_, ps, _) => block_attrs ps | None => [] end) in *.
  assert (Ha : NoDup (map fst a) /\ Js.lookup_key "class" a = None /\
               Js.lookup_key "id" a = None /\
               Forall (fun kv => Js.nullish (snd kv) = false) a).
  { unfold a. destruct block as [[[o ps] c]|].
    - destruct (HB o ps c eq_refl) as (_ & _ & _ & Hc & Hi).
      destruct (block_attrs_facts ps) as (H1 & H2 & H3).
      split; [exact H1|]. split; [now apply H2|]. split; [now apply H2|exact H3].
    - repeat split; constructor. }
  destruct Ha as (Hnd & Hac & Hai & Hav).
  assert (Hcore : exists (ws : list (string * string)) (cv : value),
            domBuilder [VStr s] parent false h =
              Some (Some (length h), grow parent ws cv tg h) /\
            last_write "id" ws = id /\
            last_write "class" ws =
              match classes with
              | [] => None
              | _ :: _ => Some (Str.join " " classes)
              end /\
            (forall k, k <> "class" -> k <> "id" ->
               last_write k ws = Js.String <$> Js.lookup_key k a) /\
            content_kids cv =
              match text with
              | Some t => if String.eqb (Str.trim t) "" then [] else [KMarkup (Str.trim t)]
              | None => []
              end).
  { assert (Hh0 : forall x : heap,
              match parent with
              | Some p => if false then set_innerHTML p "" x else x
              | None => x
              end = x) by (intros x; now destruct parent).
    destruct (String.eqb s "") eqn:E.
    - apply String.eqb_eq in E.
      destruct (selector_empty _ _ _ _ _ E) as (-> & -> & -> & -> & ->).
      exists [], VUndef. split; [|repeat split; reflexivity].
      rewrite E. unfold domBuilder. cbn [domBuilder_at forEach_item]. unfold step.
      cbn [lower String.eqb negb Js.nullish Js.get mbind option_bind Js.coalesce
             Js.truthy].
      rewrite Hh0.
      rewrite (build_item_plain _ (VStr "") (VStr "") VUndef VUndef VUndef VUndef []
                 _ eq_refl eq_refl eq_refl eq_refl eq_refl eq_refl eq_refl eq_refl
                 eq_refl).
      reflexivity.
    - set (cv := match text with
                 | Some t => Js.or_else (VStr (Str.trim t)) VNull
                 | None => VNull
                 end) in *.
      set (idv := match id with Some i => VStr i | None => VNull end) in *.
      destruct (fragment_writes tg (Str.join " " classes) idv cv a) as [item' Hw].
      match type of Hw with _ = Some (?w, _) => set (ws := w) in * end.
      assert (Hid : forall k, k <> "id" ->
                last_write k (if Js.truthy idv then [("id", Js.String idv)] else []) = None).
      { intros k Hk. now apply last_write_other. }
      assert (Hcl : forall k, k <> "class" ->
                last_write k (if Js.truthy (VStr (Str.join " " classes))
                              then [("class", Str.join " " classes)] else []) = None).
      { intros k Hk. now apply last_write_other. }
      assert (Hew : forall k, last_write k (entry_writes a) =
                              Js.String <$> Js.lookup_key k a).
      { intros k. rewrite (last_write_entries k a Hnd).
        destruct (Js.lookup_key k a) as [v|] eqn:El; [|reflexivity].
        pose proof (lookup_key_Forall _ _ _ _ Hav El) as Hv. cbn [snd] in Hv.
        now rewrite Hv. }
      exists ws, cv. split; [|split; [|split; [|split]]].
      + unfold domBuilder. cbn [domBuilder_at forEach_item]. unfold step.
        cbn [lower]. rewrite E. cbn [negb]. rewrite Hf.
        cbn [Js.nullish Js.get Js.lookup_key String.eqb Ascii.eqb Bool.eqb default
               mbind option_bind].
        change (Js.truthy (Js.coalesce (Datatypes.id VUndef) (VBool true))) with true.
        cbn iota. rewrite Hh0.
        match goal with
        | |- context [build_item ?rc ?it ?st] =>
            rewrite (build_item_plain rc it item' (VStr tg) cv VUndef VUndef ws st
                       eq_refl eq_refl eq_refl);
              [reflexivity| | | | | |exact Hw]
        end; try reflexivity.
        unfold cv. destruct text; [|reflexivity].
        unfold Js.or_else.
        match goal with |- context [if ?b then _ else _] => destruct b end;
          reflexivity.
      + unfold ws. rewrite !last_write_app. unfold idv. destruct id as [i|].
        * destruct (HI i eq_refl) as [Hi _]. cbn [Js.truthy].
          destruct (String.eqb i "") eqn:Ei;
            [apply String.eqb_eq in Ei; contradiction|reflexivity].
        * cbn [Js.truthy last_write]. rewrite Hcl by discriminate.
          now rewrite Hew, Hai.
      + unfold ws. rewrite !last_write_app, Hid by discriminate.
        destruct classes as [|c cl].
        * cbn [Str.join Js.truthy String.eqb negb last_write]. now rewrite Hew, Hac.
        * apply Forall_cons in HC as [[Hc _] _].
          pose proof (join_nonempty " " c cl Hc) as Hj. cbn [Js.truthy].
          destruct (String.eqb (Str.join " " (c :: cl)) "") eqn:Ej;
            [apply String.eqb_eq in Ej; contradiction|].
          cbn [negb last_write String.eqb Ascii.eqb Bool.eqb]. reflexivity.
      + intros k Hk1 Hk2. unfold ws.
        rewrite !last_write_app, Hid, Hcl by assumption. apply Hew.
      + unfold cv, content_kids. destruct text as [t|]; [|reflexivity].
        unfold Js.or_else. cbn [Js.truthy].
        destruct (String.eqb (Str.trim t) "") eqn:Et; cbn; [reflexivity|].
        now rewrite Et. }
  destruct Hcore as (ws & cv & Hb & Hid & Hcl & Hk & Hc).
  exists (grow parent ws cv tg h). split; [exact Hb|].
  split; [apply length_grow|]. split.
  { rewrite tag_of_grow. now destruct (decide (length h = length h)). }
  split; [now rewrite attribute_grow_new|].
  split; [now rewrite attribute_grow_new|].
  split.
  { intros k Hk1 Hk2. rewrite attribute_grow_new, (Hk k Hk1 Hk2).
    unfold a. now destruct block as [[[o ps] c]|]. }
  rewrite children_grow_new by exact Hp. exact Hc.
Qed.

(** X14: a selector string that is not empty, used as an item, builds the
    element it spells: the builder completes and returns a new element whose
    tag is the tag of the selector in lower case (div when it has none),
    whose id and class attributes are the id and the class names joined by
    spaces (absent when the selector has none), whose other attributes are
    those of the block (their names host names, none of them class or id),
    each with its value or with "true" for a bare name, and whose only child
    is the trimmed text as raw content (no child when there is no text or
    nothing is left of it). *)
Theorem domBuilder_selector (tag : string) (id : option string)
    (classes : list string)
    (block : option (ascii * list (string * option string) * ascii))
    (text : option string) (parent : option ref) (h : heap) :
  selector tag id classes block text <> "" ->
  forallb Str.is_letter (Str.chars tag) = true ->
  (forall i, id = Some i -> i <> "" /\ forallb Str.is_word (Str.chars i) = true) ->
  Forall (fun c => c <> "" /\ forallb Str.is_word (Str.chars c) = true) classes ->
  (forall o ps c, block = Some (o, ps, c) ->
     is_open_bracket o = true /\ is_close_bracket c = true /\
     Forall plain_attr ps /\ Forall (fun kv => host_name (fst kv) = true) ps /\
     ("class" ∉ map fst ps) /\ ("id" ∉ map fst ps)) ->
  (forall t, text = Some t -> forallb any_char (Str.chars t) = true) ->
  (forall q, parent = Some q -> (q < length h)%nat) ->
  exists h' : heap,
    domBuilder [VStr (selector tag id classes block text)] parent false h =
      Some (Some (length h), h') /\
    length h' = S (length h) /\
    tag_of (length h) h' =
      Some (if String.eqb tag "" then "div" else Str.toLowerCase tag) /\
    attribute (length h) "id" h' = id /\
    attribute (length h) "class" h' =
      match classes with
      | [] => None
      | _ :: _ => Some (Str.join " " classes)
      end /\
    (forall k, no_upper k = true -> k <> "class" -> k <> "id" ->
       attribute (length h) k h' =
         match block with
         | Some (_, ps, _) => Js.String <$> Js.lookup_key k (block_attrs ps)
         | None => None
         end) /\
    children (length h) h' =
      match text with
      | Some t => if String.eqb (Str.trim t) "" then [] else [KMarkup (Str.trim t)]
      | None => []
      end.
Proof.
  intros _ HT HI HC HB HX Hp.
  destruct (selector_at tag id classes block text parent h HT HI HC)
    as (h' & H1 & H2 & H3 & H4 & H5 & H6 & H7); try assumption.
  { intros o ps c Hb. destruct (HB o ps c Hb) as (B1 & B2 & B3 & _ & B4 & B5). easy. }
  exists h'. repeat match goal with |- _ /\ _ => split end; try assumption.
  intros k _. exact (H6 k).
Qed.

(** X14 at the item "Input#q.wide.big[type=search,required] Find it ", with
    no parent. *)
Lemma domBuilder_selector_witness :
  exists h' : heap,
    domBuilder [VStr "Input#q.wide.big[type=search,required] Find it "] None false [] =
      Some (Some 0%nat, h') /\
    tag_of 0 h' = Some "input" /\
    attribute 0 "id" h' = Some "q" /\
    attribute 0 "class" h' = Some "wide big" /\
    attribute 0 "type" h' = Some "search" /\
    attribute 0 "required" h' = Some "true" /\
    children 0 h' = [KMarkup "Find it"].
Proof.
  destruct (domBuilder_selector "Input" (Some "q") ["wide"; "big"]
              (Some ("["%char, [("type", Some "search"); ("required", None)], "]"%char))
              (Some "Find it ") None [])
    as (h' & Hb & _ & Ht & Hi & Hc & Ha & Hk).
  - vm_compute. discriminate.
  - reflexivity.
  - intros i [= <-]. split; [discriminate|reflexivity].
  - repeat constructor; discriminate.
  - intros o ps c [= <- <- <-]. split; [reflexivity|]. split; [reflexivity|].
    split; [|split; [repeat constructor|
                     split; apply (bool_decide_unpack _); vm_compute; exact I]].
    repeat constructor; try discriminate; intros v [= <-]; reflexivity.
  - intros t [= <-]. reflexivity.
  - discriminate.
  - exists h'. split; [exact Hb|]. split; [exact Ht|]. split; [exact Hi|].
    split; [exact Hc|].
    split; [exact (Ha "type" eq_refl ltac:(discriminate) ltac:(discriminate))|].
    split; [exact (Ha "required" eq_refl ltac:(discriminate) ltac:(discriminate))|
            exact Hk].
Defined.

(** ** Nested children *)


Lemma tree_size_pos (t : ptree) : (1 <= tree_size t)%nat.
Proof. destruct t; cbn; lia. Qed.

Lemma forest_size_cons (t : ptree) (ts : list ptree) :
  forest_size (t :: ts) = (tree_size t + forest_size ts)%nat.
Proof. reflexivity. Qed.



Lemma roots_lt (ts : list ptree) (n : nat) :
  Forall (fun r => (r < n + forest_size ts)%nat) (roots n ts).
Proof.
  revert n. induction ts as [|t ts IH]; intros n; cbn [roots]; constructor.
  - rewrite forest_size_cons. pose proof (tree_size_pos t). lia.
  - eapply Forall_impl; [apply IH|]. cbn beta. intros r Hr. rewrite forest_size_cons. lia.
Qed.

























(** ** Content *)




